(** * co2meter_exporter: frame codec, reading extraction and polling loop

    A shallow embedding of the two implementations kept in the repository:
    - [co2meter_exporter.go]: the state is a struct [envState] guarded by a
      read-write mutex, holding [co2 : int] and [temperature : float64];
    - the second implementation: the state is two package-level
      [atomic.Int32] values, [co2] and [raw_temperature], and the Celsius
      conversion happens in the getter [Temperature].
    The functions [decryptReading], [isValidReading] and the body of
    [getReadings] are textually the same in both files.

    Bytes ([uint8]) are integers in [0, 256) with the wrap-around of every
    operation written out; slices are lists, an index outside the slice is a
    run-time panic, modelled as [None]; [float64] is the binary64 format of
    the primitive floats. *)

From Stdlib Require Import ZArith List Lia String Ascii Bool Btauto.
From Stdlib Require Import Floats.PrimFloat Floats.FloatOps Floats.SpecFloat.
From Stdlib Require Import Numbers.Cyclic.Int63.Uint63.
From coqutil Require Import Z.bitblast.
From stdpp Require Import base option list.

Local Open Scope Z_scope.
Set Warnings "-inexact-float".

(** ** Bytes and slices *)

(** Conversion to [uint8]: the low eight bits. *)
Definition wrap8 (z : Z) : Z := z mod 256.

Definition is_byte (b : Z) : bool := (0 <=? b) && (b <? 256).

(** A frame is a slice of exactly eight bytes. *)
Definition is_frame (l : list Z) : bool :=
  (length l =? 8)%nat && forallb is_byte l.

(** [s[i]] as an expression: panics when [i] is outside the slice. *)
Definition load (s : list Z) (i : Z) : option Z :=
  if 0 <=? i then s !! Z.to_nat i else None.

(** [s[i] = v]: panics when [i] is outside the slice. *)
Definition store (s : list Z) (i : Z) (v : Z) : option (list Z) :=
  if (0 <=? i) && (i <? Z.of_nat (length s))
  then Some (<[Z.to_nat i := v]> s)
  else None.

(** [for i, j := range xs { body }] over a slice [xs], threading the slices
    the body assigns to. *)
Fixpoint range_from {S : Type} (body : Z -> Z -> S -> option S)
    (i : Z) (xs : list Z) (st : S) : option S :=
  match xs with
  | [] => Some st
  | j :: xs' => st' ← body i j st; range_from body (i + 1) xs' st'
  end.

Definition for_range {S : Type} (body : Z -> Z -> S -> option S)
    (xs : list Z) (st : S) : option S :=
  range_from body 0 xs st.

(** ** FrameCodec: [decryptReading] and [isValidReading] *)

Definition cstate : list Z := [0x48; 0x74; 0x65; 0x6D; 0x70; 0x39; 0x39; 0x65].
Definition shuffle : list Z := [2; 4; 0; 7; 1; 6; 5; 3].
Definition zeros8 : list Z := [0; 0; 0; 0; 0; 0; 0; 0].

Definition decryptReading (buffer key : list Z) : option (list Z) :=
  phase1 ← for_range (fun i j p =>
              b ← load buffer i; store p j b) shuffle zeros8;
  phase2 ← for_range (fun i _ p =>
              a ← load phase1 i; k ← load key i;
              store p i (Z.lxor a k)) shuffle zeros8;
  phase3 ← for_range (fun i _ p =>
              a ← load phase2 i; b ← load phase2 (Z.rem (i - 1 + 8) 8);
              store p i
                (Z.land (Z.lor (Z.shiftr a 3) (wrap8 (Z.shiftl b 5))) 0xff))
              shuffle zeros8;
  ctmp ← for_range (fun i _ p =>
              c ← load cstate i;
              store p i
                (Z.land (Z.lor (Z.shiftr c 4) (wrap8 (Z.shiftl c 4))) 0xff))
              shuffle zeros8;
  out ← for_range (fun i _ p =>
              a ← load phase3 i; c ← load ctmp i;
              store p i (wrap8 (Z.land (0x100 + a - c) 0xff)))
              shuffle zeros8;
  Some out.

(** The left operand of [||] is evaluated first and short-circuits. The sum
    is a [uint8] sum: each addition wraps. *)
Definition isValidReading (buffer : list Z) : option bool :=
  b4 ← load buffer 4;
  if negb (b4 =? 0x0D) then Some false
  else
    b0 ← load buffer 0; b1 ← load buffer 1; b2 ← load buffer 2;
    b3 ← load buffer 3;
    if negb (Z.land (wrap8 (wrap8 (b0 + b1) + b2)) 0xFF =? b3)
    then Some false
    else Some true.

(** [binary.BigEndian.Uint16(b)] on a slice [b]: panics when [b] has fewer
    than two bytes. *)
Definition BigEndian_Uint16 (b : list Z) : option Z :=
  b1 ← load b 1; b0 ← load b 0;
  Some (Z.lor b1 (Z.shiftl b0 8)).

(** [s[lo:hi]] for constant bounds within the capacity of [s]. *)
Definition slice (s : list Z) (lo hi : nat) : option (list Z) :=
  if (lo <=? hi)%nat && (hi <=? length s)%nat
  then Some (take (hi - lo) (drop lo s))
  else None.

(** ** Reference transforms, written from the specification

    [Spec.decode] is the four-stage transform of the specification, over
    unbounded integers and by position rather than by loops; [Spec.encode]
    is the device-side obfuscation, the inverse the specification asks test
    fixtures to construct. Neither is part of the program. *)
Module Spec.

Definition P : list Z := [2; 4; 0; 7; 1; 6; 5; 3].

(** The ASCII bytes of the constant. *)
Definition C : list Z :=
  map (fun a => Z.of_N (N_of_ascii a)) (list_ascii_of_string "Htemp99e").

Definition nibble_swap (c : Z) : Z :=
  Z.land (Z.lor (Z.shiftr c 4) (Z.shiftl c 4)) 0xFF.

Definition C' : list Z := map nibble_swap C.

Definition positions : list Z := [0; 1; 2; 3; 4; 5; 6; 7].

Definition at_ (l : list Z) (i : Z) : Z := nth (Z.to_nat i) l 0.

(** The input index [i] with [P[i] = k]. *)
Definition source_of (k : Z) : Z :=
  match list_find (fun j => j = k) P with
  | Some (i, _) => Z.of_nat i
  | None => 0
  end.

(** Stage 1: output position [P[i]] receives input byte [i]. *)
Definition deshuffle (raw : list Z) : list Z :=
  map (fun k => at_ raw (source_of k)) positions.

(** Stage 2: position-wise XOR with the key. *)
Definition key_mix (s key : list Z) : list Z :=
  map (fun i => Z.lxor (at_ s i) (at_ key i)) positions.

(** Stage 3: right-rotate by three, borrowing from the previous position. *)
Definition rotate_mix (s : list Z) : list Z :=
  map (fun i =>
         Z.land (Z.lor (Z.shiftr (at_ s i) 3)
                       (Z.shiftl (at_ s ((i - 1 + 8) mod 8)) 5)) 0xFF)
      positions.

(** Stage 4: subtraction of the nibble-swapped constant modulo 256. *)
Definition subtract_constant (s : list Z) : list Z :=
  map (fun i => Z.land (0x100 + at_ s i - at_ C' i) 0xFF) positions.

Definition decode (raw key : list Z) : list Z :=
  subtract_constant (rotate_mix (key_mix (deshuffle raw) key)).

(** The device side, stage by stage in the opposite order. *)
Definition add_constant (f : list Z) : list Z :=
  map (fun i => (at_ f i + at_ C' i) mod 256) positions.

(** The eight bytes as one 64-bit word, byte 0 most significant. *)
Definition concat64 (l : list Z) : Z :=
  fold_left (fun acc b => Z.lor (Z.shiftl acc 8) b) l 0.

Definition rotl64 (w n : Z) : Z :=
  Z.lor (Z.shiftl w n mod 2 ^ 64) (Z.shiftr w (64 - n)).

Definition split64 (w : Z) : list Z :=
  map (fun i => Z.land (Z.shiftr w (56 - 8 * i)) 0xFF) positions.

Definition rotate_left3 (l : list Z) : list Z :=
  split64 (rotl64 (concat64 l) 3).

(** The inverse of stage 1: raw byte [i] is taken from position [P[i]]. *)
Definition reshuffle (s : list Z) : list Z :=
  map (fun i => at_ s (at_ P i)) positions.

Definition encode (f key : list Z) : list Z :=
  reshuffle (key_mix (rotate_left3 (add_constant f)) key).

(** The validity predicate as the specification words it. *)
Definition isValid (frame : list Z) : Prop :=
  at_ frame 4 = 0x0D /\
  (at_ frame 0 + at_ frame 1 + at_ frame 2) mod 256 = at_ frame 3.

End Spec.

(** ** [float64] arithmetic used by the conversion *)

(** [float64(v)] for an integer [v]; exact below [2^53] in magnitude, which
    covers every 16-bit reading. *)
Definition float64_of_int (z : Z) : float :=
  if z <? 0 then PrimFloat.opp (PrimFloat.of_uint63 (Uint63.of_Z (- z)))
  else PrimFloat.of_uint63 (Uint63.of_Z z).

(** [math.Round] of the Go library: the nearest integer, halves away from
    zero; zeros, infinities, NaN and values without a fractional part are
    returned unchanged. On [x = (-1)^s * m * 2^e] with [e < 0] the library
    adds one half at the position of the binary point and clears the
    fractional bits. *)
Definition math_Round (x : float) : float :=
  match Prim2SF x with
  | S754_finite s m e =>
      if 0 <=? e then x
      else
        let n := Z.shiftr (Z.pos m + Z.shiftl 1 (- e - 1)) (- e) in
        let r := PrimFloat.of_uint63 (Uint63.of_Z n) in
        if s then PrimFloat.opp r else r
  | _ => x
  end.

(** ** PollLoop: the body of [getReadings]

    The two files differ only in the two statements of the [switch]; the
    loop is written once over what those statements do to the state. The
    device stream is the list of results of the successive [io.ReadFull]
    calls; [time.Sleep] has no effect on the state and is left out. *)

Inductive read : Type :=
  | ReadFull (frame : list Z)   (* the buffer after a successful read *)
  | ReadError.                  (* [err != nil] *)

Inductive event : Type :=
  | Println_decryption_failed (decrypted : list Z)
  | Fatal_read.

(** How an iteration leaves the loop body. *)
Inductive control : Type :=
  | Continue   (* falls through to the next iteration *)
  | Break      (* [break]: the loop ends, [getReadings] returns *)
  | Exit       (* [log.Fatal]: the whole process exits *)
  | Panic.     (* an index outside a slice *)

Section PollLoop.
Context {St : Type}.
Variable on_co2 : Z -> St -> St.          (* [case 0x50] *)
Variable on_temperature : Z -> St -> St.  (* [case 0x42] *)

(** The [switch code] statement. *)
Definition dispatch (code value : Z) (s : St) : St :=
  if code =? 0x50 then on_co2 value s
  else if code =? 0x42 then on_temperature value s
  else s.

(** [code = b[0]; value = int(binary.BigEndian.Uint16(b[1:3]))]. *)
Definition code_and_value (b : list Z) : option (Z * Z) :=
  code ← load b 0;
  bytes ← slice b 1 3;
  value ← BigEndian_Uint16 bytes;
  Some (code, value).

Definition iteration (key : list Z) (skipDecryption : bool)
    (r : read) (s : St) : control * St * list event :=
  match r with
  | ReadError => (Exit, s, [Fatal_read])
  | ReadFull buffer =>
      if skipDecryption then
        match code_and_value buffer with
        | Some (code, value) => (Continue, dispatch code value s, [])
        | None => (Panic, s, [])
        end
      else
        match decryptReading buffer key with
        | None => (Panic, s, [])
        | Some decrypted =>
            match isValidReading decrypted with
            | None => (Panic, s, [])
            | Some false =>
                (Break, s, [Println_decryption_failed decrypted])
            | Some true =>
                match code_and_value decrypted with
                | Some (code, value) =>
                    (Continue, dispatch code value s, [])
                | None => (Panic, s, [])
                end
            end
        end
  end.

(** The [for] loop on a finite prefix of the device stream. [Continue] as
    the result means the loop is blocked in the next read. *)
Fixpoint getReadings (key : list Z) (skipDecryption : bool)
    (reads : list read) (s : St) : control * St * list event :=
  match reads with
  | [] => (Continue, s, [])
  | r :: rest =>
      match iteration key skipDecryption r s with
      | (Continue, s', ev) =>
          match getReadings key skipDecryption rest s' with
          | (c, s'', ev') => (c, s'', ev ++ ev')
          end
      | stopped => stopped
      end
  end.

(** The frames the loop has passed to the [switch] on a prefix of the
    stream: every frame when decryption is skipped, otherwise the
    decrypted frames up to the first one that is not valid. *)
Fixpoint dispatched (key : list Z) (skipDecryption : bool)
    (reads : list read) : list (list Z) :=
  match reads with
  | ReadFull buffer :: rest =>
      if skipDecryption then buffer :: dispatched key skipDecryption rest
      else
        match decryptReading buffer key with
        | Some decrypted =>
            match isValidReading decrypted with
            | Some true => decrypted :: dispatched key skipDecryption rest
            | _ => []
            end
        | None => []
        end
  | _ => []
  end.

(** The value of the last frame of kind [code] among [frames]. *)
Fixpoint last_value (code : Z) (frames : list (list Z)) : option Z :=
  match frames with
  | [] => None
  | f :: rest =>
      match last_value code rest with
      | Some v => Some v
      | None =>
          match code_and_value f with
          | Some (c, v) => if c =? code then Some v else None
          | None => None
          end
      end
  end.

End PollLoop.

(** The components of what the loop returns. *)
Definition control_of {St : Type} (r : control * St * list event) : control :=
  fst (fst r).
Definition state_of {St : Type} (r : control * St * list event) : St :=
  snd (fst r).
Definition log_of {St : Type} (r : control * St * list event) : list event :=
  snd r.

(** Every successful read fills the 8-byte buffer with bytes. *)
Definition well_formed (reads : list read) : bool :=
  forallb (fun r => match r with
                    | ReadFull buffer => is_frame buffer
                    | ReadError => true
                    end) reads.

(** The expression both files evaluate for a raw temperature,
    [math.Round((float64(raw)/16.0-273.15)*100) / 100], in binary64: in
    [case 0x42] of the first file, in [Temperature] of the second. *)
Definition spec_celsius (raw : Z) : float :=
  PrimFloat.div
    (math_Round
       (PrimFloat.mul
          (PrimFloat.sub (PrimFloat.div (float64_of_int raw) 16%float)
                         273.15%float)
          100%float))
    100%float.

(** The same conversion in exact arithmetic, in hundredths of a degree:
    [(raw/16 - 273.15) * 100 = (625 * raw - 2731500) / 100], rounded to the
    nearest integer with halves away from zero. *)
Definition exact_hundredths (raw : Z) : Z :=
  let p := 625 * raw - 2731500 in
  Z.sgn p * ((Z.abs p + 50) / 100).

(** The binary64 number nearest to [n / 100]. *)
Definition hundredths (n : Z) : float :=
  PrimFloat.div (float64_of_int n) 100%float.

(** The raw values on which the program leaves the exact formula. All are
    half-cent ties, [raw mod 4 = 2], where [(raw/16 - 273.15) * 100] ends
    in one half: the ties below 4372 (every tie below zero degrees) and
    those from 20758 to 25338. *)
Definition binary64_tie (raw : Z) : bool :=
  (raw mod 4 =? 2)
  && ((raw <? 4372) || ((20758 <=? raw) && (raw <=? 25338))).

(** The hundredths of a degree the program arrives at: the exactly rounded
    ones, and on a [binary64_tie] the adjacent hundredth towards zero. *)
Definition binary64_hundredths (raw : Z) : Z :=
  let n := exact_hundredths raw in
  if binary64_tie raw then n - Z.sgn n else n.

(** *** [co2meter_exporter.go]: [envState] behind a read-write mutex.
    The lock makes every getter and setter atomic; the writer is a single
    goroutine, so the setters are state transformers. *)
Module Mutex.

Record envState : Type := { co2 : Z; temperature : float }.

(** [var state envState] in [main]: the zero value. *)
Definition state0 : envState := {| co2 := 0; temperature := 0%float |}.

Definition Co2 (s : envState) : Z := co2 s.
Definition setCo2 (v : Z) (s : envState) : envState :=
  {| co2 := v; temperature := temperature s |}.
Definition Temperature (s : envState) : float := temperature s.
Definition setTemperature (t : float) (s : envState) : envState :=
  {| co2 := co2 s; temperature := t |}.

(** [case 0x50: s.setCo2(value)]. *)
Definition case_0x50 (value : Z) (s : envState) : envState := setCo2 value s.

(** [case 0x42:
    s.setTemperature(math.Round((float64(value)/16.0-273.15)*100) / 100)]. *)
Definition case_0x42 (value : Z) (s : envState) : envState :=
  setTemperature
    (PrimFloat.div
       (math_Round
          (PrimFloat.mul
             (PrimFloat.sub (PrimFloat.div (float64_of_int value) 16%float)
                            273.15%float)
             100%float))
       100%float)
    s.

Definition dispatch := dispatch case_0x50 case_0x42.
Definition iteration := iteration case_0x50 case_0x42.
Definition getReadings := getReadings case_0x50 case_0x42.

End Mutex.

(** *** The second implementation: two package-level [atomic.Int32]. Every
    value stored is a 16-bit reading, so the 32-bit store never wraps. *)
Module Atomic.

Record globals : Type := { co2 : Z; raw_temperature : Z }.

(** [var co2 atomic.Int32; var raw_temperature atomic.Int32]. *)
Definition state0 : globals := {| co2 := 0; raw_temperature := 0 |}.

Definition co2_Store (v : Z) (g : globals) : globals :=
  {| co2 := v; raw_temperature := raw_temperature g |}.
Definition raw_temperature_Store (v : Z) (g : globals) : globals :=
  {| co2 := co2 g; raw_temperature := v |}.

(** [float64(co2.Load())]. *)
Definition Co2 (g : globals) : float := float64_of_int (co2 g).

(** [math.Round((float64(raw_temperature.Load())/16.0-273.15)*100) / 100]. *)
Definition Temperature (g : globals) : float :=
  PrimFloat.div
    (math_Round
       (PrimFloat.mul
          (PrimFloat.sub
             (PrimFloat.div (float64_of_int (raw_temperature g)) 16%float)
             273.15%float)
          100%float))
    100%float.

(** [case 0x50: co2.Store(value)]. *)
Definition case_0x50 (value : Z) (g : globals) : globals := co2_Store value g.

(** [case 0x42: raw_temperature.Store(value)]. *)
Definition case_0x42 (value : Z) (g : globals) : globals :=
  raw_temperature_Store value g.

Definition dispatch := dispatch case_0x50 case_0x42.
Definition iteration := iteration case_0x50 case_0x42.
Definition getReadings := getReadings case_0x50 case_0x42.

End Atomic.

(** ** The handshake and the start of the process

    [hidSetReport] and the part of [main] up to the start of the
    goroutines, the same in both files. The device file, the random source
    and the [ioctl] system call are outside the program and are taken as
    given: whether the open succeeds, the bytes the random source delivers,
    and the [errno] the system call returns for a report. *)

(** [copy(dst, src)]: the first [min(len(dst), len(src))] elements of [src]
    written over the start of [dst]; the result is [dst] afterwards. *)
Definition copy (dst src : list Z) : list Z :=
  take (length dst) src ++ drop (length src) dst.

(** The report [hidSetReport] hands to the kernel: [var report [9]byte],
    [report[0] = 0x00], [copy(report[1:], key)]. *)
Definition hid_report (key : list Z) : list Z :=
  let report := replicate 9 0 in
  let report := <[0%nat := 0x00]> report in
  take 1 report ++ copy (drop 1 report) key.

Inductive fatal : Type :=
  | Fatal_missing_device_path
  | Fatal_open
  | Fatal_ioctl (errno : Z).

(** [hidSetReport]: the report that was sent, or the fatal exit when
    [errno != 0]. *)
Definition hidSetReport (ioctl : list Z -> Z) (key : list Z)
    : fatal + list Z :=
  let report := hid_report key in
  let errno := ioctl report in
  if negb (errno =? 0) then inl (Fatal_ioctl errno) else inr report.

Record flags : Type :=
  { deviceFlag : string; skipDecryptionFlag : bool }.

Record world : Type :=
  { open_succeeds : bool;
    random_bytes : list Z;       (* what [rand.Read] delivers *)
    ioctl_errno : list Z -> Z }.

(** What [main] has set going when it reaches [go getReadings(...)]. *)
Record started : Type :=
  { sent_report : list Z;     (* the report the device received *)
    poll_key : list Z;        (* the key passed to [getReadings] *)
    poll_skip : bool }.       (* its [skipDecryption] argument *)

(** [main] up to the start of the polling goroutine. [rand.Read(key[:])]
    fills the 8-byte array with what the source delivers and its error is
    not looked at. *)
Definition main (f : flags) (w : world) : fatal + started :=
  if String.eqb (deviceFlag f) "" then inl Fatal_missing_device_path
  else if negb (open_succeeds w) then inl Fatal_open
  else
    let key := copy (replicate 8 0) (random_bytes w) in
    match hidSetReport (ioctl_errno w) key with
    | inl e => inl e
    | inr report =>
        inr {| sent_report := report;
               poll_key := key;
               poll_skip := skipDecryptionFlag f |}
    end.

(** ** What the gauges show

    In [co2meter_exporter.go] an iteration of [logMetrics] reads the state
    and sets the two gauges; in the second implementation the gauges are
    [GaugeFunc]s that call [Co2] and [Temperature] at every scrape. *)
Definition Mutex_gauges (s : Mutex.envState) : float * float :=
  let co2 := Mutex.Co2 s in
  let t := Mutex.Temperature s in
  (float64_of_int co2, t).

Definition Atomic_gauges (g : Atomic.globals) : float * float :=
  (Atomic.Co2 g, Atomic.Temperature g).

(** The integer a binary64 number denotes, if it denotes one. *)
Definition float_to_Z (x : float) : option Z :=
  match Prim2SF x with
  | S754_zero _ => Some 0
  | S754_finite s m e =>
      let magnitude :=
        if 0 <=? e then Some (Z.pos m * 2 ^ e)
        else if Z.pos m mod 2 ^ (- e) =? 0 then Some (Z.pos m / 2 ^ (- e))
        else None in
      match magnitude with
      | Some v => Some (if s then - v else v)
      | None => None
      end
  | _ => None
  end.

(** The integer [math.Round] produces in the conversion of [raw], before
    the division by 100: the temperature in hundredths of a degree. *)
Definition celsius_cents (raw : Z) : option Z :=
  float_to_Z
    (math_Round
       (PrimFloat.mul
          (PrimFloat.sub (PrimFloat.div (float64_of_int raw) 16%float)
                         273.15%float)
          100%float)).

(** A frame in the layout [isValidReading] accepts: kind, value big-endian,
    checksum, terminator and three bytes that are not looked at. *)
Definition plain_frame (code value t5 t6 t7 : Z) : list Z :=
  [code; value / 256; value mod 256;
   (code + value / 256 + value mod 256) mod 256; 0x0D; t5; t6; t7].

(** ** Auxiliary definitions of the proofs *)

(** One output byte of [decryptReading], from the key-mixed byte at the
    same position, the one at the previous position and the constant. *)
Definition decrypted_byte (cur prev c : Z) : Z :=
  wrap8
    (Z.land
       (0x100
        + Z.land (Z.lor (Z.shiftr cur 3) (wrap8 (Z.shiftl prev 5))) 0xff
        - Z.land (Z.lor (Z.shiftr c 4) (wrap8 (Z.shiftl c 4))) 0xff)
       0xff).

(** The same byte in the reference transform. *)
Definition reference_byte (cur prev c : Z) : Z :=
  Z.land
    (0x100 + Z.land (Z.lor (Z.shiftr cur 3) (Z.shiftl prev 5)) 0xFF
     - Spec.nibble_swap c)
    0xFF.

(** Byte [i] of the word rotated left by three bits: the low five bits of
    byte [i] followed by the high three bits of byte [i+1]. *)
Definition rotl_byte (a next : Z) : Z :=
  Z.land (Z.lor (Z.shiftl a 3) (Z.shiftr next 5)) 0xFF.

(** Stage 3 of the reference decoder at one position. *)
Definition rotr_byte (cur prev : Z) : Z :=
  Z.land (Z.lor (Z.shiftr cur 3) (Z.shiftl prev 5)) 0xFF.

(** A bounded universal check by enumeration. *)
Fixpoint forall_from (f : Z -> bool) (lo : Z) (count : nat) : bool :=
  match count with
  | O => true
  | S c => f lo && forall_from f (lo + 1) c
  end.

(** Whether [float64(v)] denotes exactly [v]. *)
Definition float64_exact_at (v : Z) : bool :=
  match float_to_Z (float64_of_int v) with
  | Some w => w =? v
  | None => false
  end.

(** Whether the conversion of [raw] is a whole number [n] of hundredths
    within half a hundredth of the exact [(raw/16 - 273.15) * 100 =
    (625 * raw - 2731500) / 100], and the value returned is the binary64
    number [n / 100]. *)
Definition celsius_ok (raw : Z) : bool :=
  match celsius_cents raw with
  | Some n =>
      (Z.abs (100 * n - (625 * raw - 2731500)) <=? 50)
      && PrimFloat.Leibniz.eqb (spec_celsius raw) (hundredths n)
  | None => false
  end.

(** * Properties *)

(** ** Frames as eight explicit bytes *)

Lemma is_byte_range b : is_byte b = true -> 0 <= b < 256.
Proof. unfold is_byte. rewrite andb_true_iff. lia. Qed.

Lemma is_byte_intro b : 0 <= b < 256 -> is_byte b = true.
Proof. unfold is_byte. rewrite andb_true_iff. lia. Qed.

Lemma is_frame_inv l :
  is_frame l = true ->
  exists b0 b1 b2 b3 b4 b5 b6 b7,
    l = [b0; b1; b2; b3; b4; b5; b6; b7] /\
    (0 <= b0 < 256 /\ 0 <= b1 < 256 /\ 0 <= b2 < 256 /\ 0 <= b3 < 256) /\
    (0 <= b4 < 256 /\ 0 <= b5 < 256 /\ 0 <= b6 < 256 /\ 0 <= b7 < 256).
Proof.
  unfold is_frame. rewrite andb_true_iff. intros [Hlen Hall].
  apply Nat.eqb_eq in Hlen.
  do 8 (destruct l as [|? l]; [discriminate Hlen|]).
  destruct l; [|discriminate Hlen].
  cbn [forallb] in Hall. rewrite !andb_true_iff in Hall.
  repeat match goal with
         | H : _ /\ _ |- _ => destruct H
         | H : is_byte _ = true |- _ => apply is_byte_range in H
         end.
  do 8 eexists. split; [reflexivity|]. lia.
Qed.

Lemma is_frame_intro b0 b1 b2 b3 b4 b5 b6 b7 :
  0 <= b0 < 256 -> 0 <= b1 < 256 -> 0 <= b2 < 256 -> 0 <= b3 < 256 ->
  0 <= b4 < 256 -> 0 <= b5 < 256 -> 0 <= b6 < 256 -> 0 <= b7 < 256 ->
  is_frame [b0; b1; b2; b3; b4; b5; b6; b7] = true.
Proof.
  intros. unfold is_frame. cbn [length forallb Nat.eqb andb].
  rewrite !is_byte_intro by assumption. reflexivity.
Qed.

(** Replaces a frame hypothesis by eight named bytes and their ranges. *)
Ltac frame_bytes H :=
  let E := fresh "E" in
  apply is_frame_inv in H;
  destruct H as (?b & ?b & ?b & ?b & ?b & ?b & ?b & ?b & E & ? & ?);
  subst.

(** ** Bit-level facts on bytes *)

(** Equality of integers bit by bit; bits at negative positions are unset. *)
Ltac bits :=
  Z.bitblast;
  repeat match goal with
         | |- context [Z.testbit ?a ?n] =>
             rewrite (Z.testbit_neg_r a n) by lia
         end;
  try reflexivity; try btauto.

Lemma land_255_mod z : Z.land z 255 = z mod 256.
Proof. change 255 with (Z.ones 8). rewrite Z.land_ones by lia. reflexivity. Qed.

Lemma land_255_range z : 0 <= Z.land z 255 < 256.
Proof. rewrite land_255_mod. apply Z.mod_pos_bound. lia. Qed.

Lemma wrap8_range z : 0 <= wrap8 z < 256.
Proof. unfold wrap8. apply Z.mod_pos_bound. lia. Qed.

Lemma wrap8_small z : 0 <= z < 256 -> wrap8 z = z.
Proof. unfold wrap8. apply Z.mod_small. Qed.

Lemma lor_wrap8_low x y :
  Z.land (Z.lor x (wrap8 y)) 255 = Z.land (Z.lor x y) 255.
Proof.
  unfold wrap8. change 256 with (2 ^ 8). change 255 with (Z.ones 8). bits.
Qed.

Lemma lxor_byte x k : 0 <= x < 256 -> 0 <= k < 256 -> 0 <= Z.lxor x k < 256.
Proof.
  intros Hx Hk.
  assert (E : Z.lxor x k = Z.lxor x k mod 2 ^ 8).
  { rewrite <- (Z.mod_small x (2 ^ 8)) at 1 by (change (2 ^ 8) with 256; lia).
    rewrite <- (Z.mod_small k (2 ^ 8)) at 1 by (change (2 ^ 8) with 256; lia).
    bits. }
  rewrite E. change (2 ^ 8) with 256. apply Z.mod_pos_bound. lia.
Qed.

Lemma lxor_cancel x k : Z.lxor (Z.lxor x k) k = x.
Proof. rewrite Z.lxor_assoc, Z.lxor_nilpotent. apply Z.lxor_0_r. Qed.

(** ** The decoder, byte by byte *)

Lemma decryptReading_bytes b0 b1 b2 b3 b4 b5 b6 b7 k0 k1 k2 k3 k4 k5 k6 k7 :
  decryptReading [b0; b1; b2; b3; b4; b5; b6; b7]
                 [k0; k1; k2; k3; k4; k5; k6; k7] =
  Some
    [decrypted_byte (Z.lxor b2 k0) (Z.lxor b3 k7) 0x48;
     decrypted_byte (Z.lxor b4 k1) (Z.lxor b2 k0) 0x74;
     decrypted_byte (Z.lxor b0 k2) (Z.lxor b4 k1) 0x65;
     decrypted_byte (Z.lxor b7 k3) (Z.lxor b0 k2) 0x6D;
     decrypted_byte (Z.lxor b1 k4) (Z.lxor b7 k3) 0x70;
     decrypted_byte (Z.lxor b6 k5) (Z.lxor b1 k4) 0x39;
     decrypted_byte (Z.lxor b5 k6) (Z.lxor b6 k5) 0x39;
     decrypted_byte (Z.lxor b3 k7) (Z.lxor b5 k6) 0x65].
Proof. reflexivity. Qed.

Lemma Spec_decode_bytes b0 b1 b2 b3 b4 b5 b6 b7 k0 k1 k2 k3 k4 k5 k6 k7 :
  Spec.decode [b0; b1; b2; b3; b4; b5; b6; b7]
              [k0; k1; k2; k3; k4; k5; k6; k7] =
  [reference_byte (Z.lxor b2 k0) (Z.lxor b3 k7) 0x48;
   reference_byte (Z.lxor b4 k1) (Z.lxor b2 k0) 0x74;
   reference_byte (Z.lxor b0 k2) (Z.lxor b4 k1) 0x65;
   reference_byte (Z.lxor b7 k3) (Z.lxor b0 k2) 0x6D;
   reference_byte (Z.lxor b1 k4) (Z.lxor b7 k3) 0x70;
   reference_byte (Z.lxor b6 k5) (Z.lxor b1 k4) 0x39;
   reference_byte (Z.lxor b5 k6) (Z.lxor b6 k5) 0x39;
   reference_byte (Z.lxor b3 k7) (Z.lxor b5 k6) 0x65].
Proof. reflexivity. Qed.

Lemma decrypted_byte_reference cur prev c :
  decrypted_byte cur prev c = reference_byte cur prev c.
Proof.
  unfold decrypted_byte, reference_byte, Spec.nibble_swap.
  rewrite !lor_wrap8_low. apply wrap8_small, land_255_range.
Qed.

Lemma decryptReading_decode raw key :
  is_frame raw = true -> is_frame key = true ->
  decryptReading raw key = Some (Spec.decode raw key).
Proof.
  intros Hraw Hkey. frame_bytes Hraw. frame_bytes Hkey.
  rewrite decryptReading_bytes, Spec_decode_bytes.
  rewrite !decrypted_byte_reference. reflexivity.
Qed.

(** C1. On every 8-byte frame and 8-byte key [decryptReading] returns, and
    what it returns is the four-stage reference transform of the
    specification: the byte permutation [P], the XOR with the key, the
    rotate-mix and the subtraction of the nibble-swapped constant. Being a
    function of its two arguments it is deterministic and has no effect. *)
Theorem C1_decryptReading_is_reference_transform raw key :
  is_frame raw = true -> is_frame key = true ->
  decryptReading raw key =
  Some (Spec.subtract_constant
          (Spec.rotate_mix (Spec.key_mix (Spec.deshuffle raw) key))) /\
  Spec.C = cstate /\ Spec.P = shuffle.
Proof.
  intros Hraw Hkey. split; [|split; reflexivity].
  exact (decryptReading_decode raw key Hraw Hkey).
Qed.

Lemma C1_witness :
  decryptReading [42; 161; 163; 190; 73; 157; 154; 188] [1; 2; 3; 4; 5; 6; 7; 8] =
  Some (Spec.subtract_constant
          (Spec.rotate_mix
             (Spec.key_mix
                (Spec.deshuffle [42; 161; 163; 190; 73; 157; 154; 188])
                [1; 2; 3; 4; 5; 6; 7; 8]))) /\
  Spec.C = cstate /\ Spec.P = shuffle.
Proof.
  apply (C1_decryptReading_is_reference_transform
           [42; 161; 163; 190; 73; 157; 154; 188] [1; 2; 3; 4; 5; 6; 7; 8]);
    reflexivity.
Defined.

(** ** The device side: rotation of the 64-bit word *)

Lemma lor_shiftl8 acc b :
  0 <= b < 256 -> Z.lor (Z.shiftl acc 8) b = acc * 256 + b.
Proof.
  intros Hb. rewrite Z.or_to_plus.
  - rewrite Z.shiftl_mul_pow2 by lia. reflexivity.
  - rewrite <- (Z.mod_small b (2 ^ 8)) by (change (2 ^ 8) with 256; lia). bits.
Qed.

Lemma rotl_byte_arith a b :
  0 <= a < 256 -> 0 <= b < 256 -> rotl_byte a b = (a mod 32) * 8 + b / 32.
Proof.
  intros Ha Hb. unfold rotl_byte. rewrite land_255_mod, Z.or_to_plus.
  - rewrite Z.shiftl_mul_pow2, Z.shiftr_div_pow2 by lia.
    change (2 ^ 3) with 8. change (2 ^ 5) with 32.
    Z.div_mod_to_equations. lia.
  - rewrite <- (Z.mod_small b (2 ^ 8)) by (change (2 ^ 8) with 256; lia). bits.
Qed.

Lemma rotr_byte_arith cur prev :
  0 <= cur < 256 -> 0 <= prev < 256 ->
  rotr_byte cur prev = cur / 8 + (prev mod 8) * 32.
Proof.
  intros Hc Hp. unfold rotr_byte. rewrite land_255_mod, Z.or_to_plus.
  - rewrite Z.shiftl_mul_pow2, Z.shiftr_div_pow2 by lia.
    change (2 ^ 3) with 8. change (2 ^ 5) with 32.
    Z.div_mod_to_equations. lia.
  - rewrite <- (Z.mod_small cur (2 ^ 8)) by (change (2 ^ 8) with 256; lia).
    bits.
Qed.

Lemma rotl_byte_range a b : 0 <= rotl_byte a b < 256.
Proof. apply land_255_range. Qed.

Lemma rotr_byte_range a b : 0 <= rotr_byte a b < 256.
Proof. apply land_255_range. Qed.

(** Rotating right undoes rotating left, and conversely, at every byte. *)
Lemma rotr_rotl a next prev :
  0 <= a < 256 -> 0 <= next < 256 -> 0 <= prev < 256 ->
  rotr_byte (rotl_byte a next) (rotl_byte prev a) = a.
Proof.
  intros Ha Hn Hp.
  rewrite rotr_byte_arith by apply rotl_byte_range.
  rewrite !rotl_byte_arith by assumption.
  Z.div_mod_to_equations. lia.
Qed.

Lemma rotl_rotr a next prev :
  0 <= a < 256 -> 0 <= next < 256 -> 0 <= prev < 256 ->
  rotl_byte (rotr_byte a prev) (rotr_byte next a) = a.
Proof.
  intros Ha Hn Hp.
  rewrite rotl_byte_arith by apply rotr_byte_range.
  rewrite !rotr_byte_arith by assumption.
  Z.div_mod_to_equations. lia.
Qed.

Lemma rotl64_3 w :
  0 <= w < 2 ^ 64 -> Spec.rotl64 w 3 = (w * 8) mod 2 ^ 64 + w / 2 ^ 61.
Proof.
  intros Hw. unfold Spec.rotl64. rewrite Z.or_to_plus.
  - rewrite Z.shiftl_mul_pow2, Z.shiftr_div_pow2 by lia. reflexivity.
  - change (64 - 3) with 61. rewrite <- (Z.mod_small w (2 ^ 64)) by lia. bits.
Qed.

Lemma concat64_sum a0 a1 a2 a3 a4 a5 a6 a7 :
  0 <= a0 < 256 -> 0 <= a1 < 256 -> 0 <= a2 < 256 -> 0 <= a3 < 256 ->
  0 <= a4 < 256 -> 0 <= a5 < 256 -> 0 <= a6 < 256 -> 0 <= a7 < 256 ->
  Spec.concat64 [a0; a1; a2; a3; a4; a5; a6; a7] =
  a0 * 2 ^ 56 + a1 * 2 ^ 48 + a2 * 2 ^ 40 + a3 * 2 ^ 32
  + a4 * 2 ^ 24 + a5 * 2 ^ 16 + a6 * 2 ^ 8 + a7.
Proof.
  intros. unfold Spec.concat64. cbn [fold_left].
  rewrite !lor_shiftl8 by assumption. lia.
Qed.

(** A base-256 digit of a number written as high part, digit, low part. *)
Lemma digit_at (H d L k : Z) :
  0 <= k -> 0 <= L < 2 ^ k -> 0 <= d < 256 ->
  (((H * 256 + d) * 2 ^ k + L) / 2 ^ k) mod 256 = d.
Proof.
  intros Hk HL Hd.
  assert (0 < 2 ^ k) by (apply Z.pow_pos_nonneg; lia).
  rewrite Z.div_add_l by lia.
  rewrite (Z.div_small L) by lia.
  rewrite Z.add_0_r, Z.add_comm, Z_mod_plus_full.
  apply Z.mod_small; lia.
Qed.

Ltac digit Hh Ll :=
  match goal with
  | |- (?R / 2 ^ ?k) mod 256 = ?d =>
      replace R with ((Hh * 256 + d) * 2 ^ k + Ll) by ring;
      apply digit_at; lia
  end.

Lemma split64_digits d0 d1 d2 d3 d4 d5 d6 d7 :
  0 <= d0 < 256 -> 0 <= d1 < 256 -> 0 <= d2 < 256 -> 0 <= d3 < 256 ->
  0 <= d4 < 256 -> 0 <= d5 < 256 -> 0 <= d6 < 256 -> 0 <= d7 < 256 ->
  Spec.split64 (d0 * 2 ^ 56 + d1 * 2 ^ 48 + d2 * 2 ^ 40 + d3 * 2 ^ 32
                + d4 * 2 ^ 24 + d5 * 2 ^ 16 + d6 * 2 ^ 8 + d7)
  = [d0; d1; d2; d3; d4; d5; d6; d7].
Proof.
  intros. unfold Spec.split64. cbn [map Spec.positions].
  rewrite !land_255_mod, !Z.shiftr_div_pow2 by lia.
  change (56 - 8 * 0) with 56. change (56 - 8 * 1) with 48.
  change (56 - 8 * 2) with 40. change (56 - 8 * 3) with 32.
  change (56 - 8 * 4) with 24. change (56 - 8 * 5) with 16.
  change (56 - 8 * 6) with 8. change (56 - 8 * 7) with 0.
  f_equal; [digit 0 (d1 * 2 ^ 48 + d2 * 2 ^ 40 + d3 * 2 ^ 32 + d4 * 2 ^ 24
                     + d5 * 2 ^ 16 + d6 * 2 ^ 8 + d7)|].
  f_equal; [digit d0 (d2 * 2 ^ 40 + d3 * 2 ^ 32 + d4 * 2 ^ 24 + d5 * 2 ^ 16
                      + d6 * 2 ^ 8 + d7)|].
  f_equal; [digit (d0 * 2 ^ 8 + d1)
                  (d3 * 2 ^ 32 + d4 * 2 ^ 24 + d5 * 2 ^ 16 + d6 * 2 ^ 8 + d7)|].
  f_equal; [digit (d0 * 2 ^ 16 + d1 * 2 ^ 8 + d2)
                  (d4 * 2 ^ 24 + d5 * 2 ^ 16 + d6 * 2 ^ 8 + d7)|].
  f_equal; [digit (d0 * 2 ^ 24 + d1 * 2 ^ 16 + d2 * 2 ^ 8 + d3)
                  (d5 * 2 ^ 16 + d6 * 2 ^ 8 + d7)|].
  f_equal; [digit (d0 * 2 ^ 32 + d1 * 2 ^ 24 + d2 * 2 ^ 16 + d3 * 2 ^ 8 + d4)
                  (d6 * 2 ^ 8 + d7)|].
  f_equal; [digit (d0 * 2 ^ 40 + d1 * 2 ^ 32 + d2 * 2 ^ 24 + d3 * 2 ^ 16
                   + d4 * 2 ^ 8 + d5) d7|].
  f_equal.
  digit (d0 * 2 ^ 48 + d1 * 2 ^ 40 + d2 * 2 ^ 32 + d3 * 2 ^ 24 + d4 * 2 ^ 16
         + d5 * 2 ^ 8 + d6) 0.
Qed.

(** [a = 32 * h + l] with [l] the low five bits. *)
Ltac split32 a h l :=
  let E := fresh "E" in
  let B := fresh "B" in
  pose proof (Z.div_mod a 32 ltac:(lia)) as E;
  pose proof (Z.mod_pos_bound a 32 ltac:(lia)) as B;
  set (h := a / 32) in *; set (l := a mod 32) in *; clearbody h l.

Lemma rotl64_sum a0 a1 a2 a3 a4 a5 a6 a7 :
  0 <= a0 < 256 -> 0 <= a1 < 256 -> 0 <= a2 < 256 -> 0 <= a3 < 256 ->
  0 <= a4 < 256 -> 0 <= a5 < 256 -> 0 <= a6 < 256 -> 0 <= a7 < 256 ->
  Spec.rotl64 (Spec.concat64 [a0; a1; a2; a3; a4; a5; a6; a7]) 3 =
  rotl_byte a0 a1 * 2 ^ 56 + rotl_byte a1 a2 * 2 ^ 48
  + rotl_byte a2 a3 * 2 ^ 40 + rotl_byte a3 a4 * 2 ^ 32
  + rotl_byte a4 a5 * 2 ^ 24 + rotl_byte a5 a6 * 2 ^ 16
  + rotl_byte a6 a7 * 2 ^ 8 + rotl_byte a7 a0.
Proof.
  intros.
  rewrite concat64_sum by assumption.
  rewrite rotl64_3 by lia.
  rewrite !rotl_byte_arith by assumption.
  split32 a0 h0 l0; split32 a1 h1 l1; split32 a2 h2 l2; split32 a3 h3 l3;
  split32 a4 h4 l4; split32 a5 h5 l5; split32 a6 h6 l6; split32 a7 h7 l7.
  set (W := a0 * 2 ^ 56 + a1 * 2 ^ 48 + a2 * 2 ^ 40 + a3 * 2 ^ 32
            + a4 * 2 ^ 24 + a5 * 2 ^ 16 + a6 * 2 ^ 8 + a7).
  assert (Dq : W / 2 ^ 61 = h0).
  { symmetry.
    apply (Z.div_unique_pos W (2 ^ 61) h0 (W - h0 * 2 ^ 61)); subst W; lia. }
  assert (Dr : (W * 8) mod 2 ^ 64 = W * 8 - h0 * 2 ^ 64).
  { symmetry. apply (Z.mod_unique_pos (W * 8) (2 ^ 64) h0); subst W; lia. }
  rewrite Dq, Dr. subst W. lia.
Qed.

Lemma rotate_left3_bytes a0 a1 a2 a3 a4 a5 a6 a7 :
  0 <= a0 < 256 -> 0 <= a1 < 256 -> 0 <= a2 < 256 -> 0 <= a3 < 256 ->
  0 <= a4 < 256 -> 0 <= a5 < 256 -> 0 <= a6 < 256 -> 0 <= a7 < 256 ->
  Spec.rotate_left3 [a0; a1; a2; a3; a4; a5; a6; a7] =
  [rotl_byte a0 a1; rotl_byte a1 a2; rotl_byte a2 a3; rotl_byte a3 a4;
   rotl_byte a4 a5; rotl_byte a5 a6; rotl_byte a6 a7; rotl_byte a7 a0].
Proof.
  intros. unfold Spec.rotate_left3.
  rewrite rotl64_sum by assumption.
  apply split64_digits; apply rotl_byte_range.
Qed.

(** ** Encoding and decoding are mutually inverse *)

Lemma add_sub_constant f c :
  0 <= f < 256 -> 0 <= c < 256 ->
  Z.land (0x100 + (f + c) mod 256 - c) 0xFF = f.
Proof.
  intros Hf Hc. rewrite land_255_mod. Z.div_mod_to_equations. lia.
Qed.

Lemma sub_add_constant x c :
  0 <= x < 256 -> 0 <= c < 256 ->
  (Z.land (0x100 + x - c) 0xFF + c) mod 256 = x.
Proof.
  intros Hx Hc. rewrite land_255_mod. Z.div_mod_to_equations. lia.
Qed.

Lemma reference_byte_rotr cur prev c :
  reference_byte cur prev c =
  Z.land (0x100 + rotr_byte cur prev - Spec.nibble_swap c) 0xFF.
Proof. reflexivity. Qed.

Lemma reference_byte_range cur prev c : 0 <= reference_byte cur prev c < 256.
Proof. apply land_255_range. Qed.

(** The encoder on eight explicit bytes; [a_i] is plaintext byte [i] plus
    the constant. *)
Lemma Spec_encode_bytes f0 f1 f2 f3 f4 f5 f6 f7 k0 k1 k2 k3 k4 k5 k6 k7 :
  let a0 := (f0 + 132) mod 256 in let a1 := (f1 + 71) mod 256 in
  let a2 := (f2 + 86) mod 256 in let a3 := (f3 + 214) mod 256 in
  let a4 := (f4 + 7) mod 256 in let a5 := (f5 + 147) mod 256 in
  let a6 := (f6 + 147) mod 256 in let a7 := (f7 + 86) mod 256 in
  Spec.encode [f0; f1; f2; f3; f4; f5; f6; f7]
              [k0; k1; k2; k3; k4; k5; k6; k7] =
  [Z.lxor (rotl_byte a2 a3) k2; Z.lxor (rotl_byte a4 a5) k4;
   Z.lxor (rotl_byte a0 a1) k0; Z.lxor (rotl_byte a7 a0) k7;
   Z.lxor (rotl_byte a1 a2) k1; Z.lxor (rotl_byte a6 a7) k6;
   Z.lxor (rotl_byte a5 a6) k5; Z.lxor (rotl_byte a3 a4) k3].
Proof.
  intros. unfold Spec.encode.
  change (Spec.add_constant [f0; f1; f2; f3; f4; f5; f6; f7])
    with [a0; a1; a2; a3; a4; a5; a6; a7].
  rewrite rotate_left3_bytes by (apply Z.mod_pos_bound; lia).
  reflexivity.
Qed.

Lemma encode_is_frame f key :
  is_frame f = true -> is_frame key = true ->
  is_frame (Spec.encode f key) = true.
Proof.
  intros Hf Hk. frame_bytes Hf. frame_bytes Hk.
  rewrite Spec_encode_bytes. cbv zeta.
  apply is_frame_intro; apply lxor_byte; try lia; apply rotl_byte_range.
Qed.

Lemma decode_is_frame raw key : is_frame (Spec.decode raw key) = true.
Proof.
  unfold Spec.decode, Spec.subtract_constant. cbn [map Spec.positions].
  apply is_frame_intro; apply land_255_range.
Qed.

Lemma decode_encode f key :
  is_frame f = true -> is_frame key = true ->
  Spec.decode (Spec.encode f key) key = f.
Proof.
  intros Hf Hk. frame_bytes Hf. frame_bytes Hk.
  rewrite Spec_encode_bytes. cbv zeta.
  rewrite Spec_decode_bytes. rewrite !lxor_cancel.
  rewrite !reference_byte_rotr.
  rewrite !rotr_rotl by (apply Z.mod_pos_bound; lia).
  change (Spec.nibble_swap 0x48) with 132.
  change (Spec.nibble_swap 0x74) with 71.
  change (Spec.nibble_swap 0x65) with 86.
  change (Spec.nibble_swap 0x6D) with 214.
  change (Spec.nibble_swap 0x70) with 7.
  change (Spec.nibble_swap 0x39) with 147.
  rewrite !add_sub_constant by lia. reflexivity.
Qed.

Lemma encode_decode raw key :
  is_frame raw = true -> is_frame key = true ->
  Spec.encode (Spec.decode raw key) key = raw.
Proof.
  intros Hr Hk. frame_bytes Hr. frame_bytes Hk.
  rewrite Spec_decode_bytes, Spec_encode_bytes. cbv zeta.
  rewrite !reference_byte_rotr.
  change (Spec.nibble_swap 0x48) with 132.
  change (Spec.nibble_swap 0x74) with 71.
  change (Spec.nibble_swap 0x65) with 86.
  change (Spec.nibble_swap 0x6D) with 214.
  change (Spec.nibble_swap 0x70) with 7.
  change (Spec.nibble_swap 0x39) with 147.
  rewrite !sub_add_constant by (try apply rotr_byte_range; lia).
  rewrite !rotl_rotr by (apply lxor_byte; lia).
  rewrite !lxor_cancel. reflexivity.
Qed.

(** C2. Round trip: the device-side obfuscation of a plaintext frame under a
    key (add the nibble-swapped constant, rotate the 64-bit word left by
    three bits, XOR with the key, undo the byte permutation), decrypted by
    [decryptReading] under the same key, is the plaintext frame. *)
Theorem C2_round_trip f key :
  is_frame f = true -> is_frame key = true ->
  decryptReading (Spec.encode f key) key = Some f.
Proof.
  intros Hf Hk.
  rewrite decryptReading_decode by (try apply encode_is_frame; assumption).
  f_equal. apply decode_encode; assumption.
Qed.

Lemma C2_witness :
  decryptReading
    (Spec.encode [0x50; 0x02; 0x0F; 0x61; 0x0D; 0; 0; 0] [1; 2; 3; 4; 5; 6; 7; 8])
    [1; 2; 3; 4; 5; 6; 7; 8]
  = Some [0x50; 0x02; 0x0F; 0x61; 0x0D; 0; 0; 0].
Proof.
  apply (C2_round_trip [0x50; 0x02; 0x0F; 0x61; 0x0D; 0; 0; 0]
           [1; 2; 3; 4; 5; 6; 7; 8]); reflexivity.
Defined.

(** C10. For a fixed key [decryptReading] is a bijection on 8-byte frames:
    it maps frames to frames, distinct raw frames decode to distinct
    frames, and every frame is the decoding of a raw frame. *)
Theorem C10_decryptReading_bijective key :
  is_frame key = true ->
  (forall raw, is_frame raw = true ->
     exists out, decryptReading raw key = Some out /\ is_frame out = true) /\
  (forall raw1 raw2, is_frame raw1 = true -> is_frame raw2 = true ->
     decryptReading raw1 key = decryptReading raw2 key -> raw1 = raw2) /\
  (forall out, is_frame out = true ->
     exists raw, is_frame raw = true /\ decryptReading raw key = Some out).
Proof.
  intros Hk. split; [|split].
  - intros raw Hr. exists (Spec.decode raw key). split.
    + apply decryptReading_decode; assumption.
    + apply decode_is_frame.
  - intros raw1 raw2 H1 H2 E.
    rewrite !decryptReading_decode in E by assumption.
    assert (D : Spec.decode raw1 key = Spec.decode raw2 key) by congruence.
    rewrite <- (encode_decode raw1 key), <- (encode_decode raw2 key)
      by assumption.
    rewrite D. reflexivity.
  - intros out Ho. exists (Spec.encode out key). split.
    + apply encode_is_frame; assumption.
    + rewrite decryptReading_decode
        by (try apply encode_is_frame; assumption).
      f_equal. apply decode_encode; assumption.
Qed.

Lemma C10_witness :
  (forall raw, is_frame raw = true ->
     exists out, decryptReading raw [1; 2; 3; 4; 5; 6; 7; 8] = Some out /\
                 is_frame out = true) /\
  (forall raw1 raw2, is_frame raw1 = true -> is_frame raw2 = true ->
     decryptReading raw1 [1; 2; 3; 4; 5; 6; 7; 8] =
     decryptReading raw2 [1; 2; 3; 4; 5; 6; 7; 8] -> raw1 = raw2) /\
  (forall out, is_frame out = true ->
     exists raw, is_frame raw = true /\
                 decryptReading raw [1; 2; 3; 4; 5; 6; 7; 8] = Some out).
Proof.
  apply (C10_decryptReading_bijective [1; 2; 3; 4; 5; 6; 7; 8]). reflexivity.
Defined.

(** ** The validity gate *)

Lemma isValidReading_bytes b0 b1 b2 b3 b4 b5 b6 b7 :
  isValidReading [b0; b1; b2; b3; b4; b5; b6; b7] =
  Some ((b4 =? 0x0D)
        && (Z.land (wrap8 (wrap8 (b0 + b1) + b2)) 0xFF =? b3)).
Proof.
  change (isValidReading [b0; b1; b2; b3; b4; b5; b6; b7])
    with (if negb (b4 =? 0x0D) then Some false
          else if negb (Z.land (wrap8 (wrap8 (b0 + b1) + b2)) 0xFF =? b3)
               then Some false else Some true).
  destruct (b4 =? 0x0D); [|reflexivity].
  destruct (_ =? b3); reflexivity.
Qed.

Lemma checksum_mod b0 b1 b2 :
  Z.land (wrap8 (wrap8 (b0 + b1) + b2)) 0xFF = (b0 + b1 + b2) mod 256.
Proof.
  rewrite land_255_mod. unfold wrap8.
  rewrite Z.mod_mod by lia. rewrite Zplus_mod_idemp_l. reflexivity.
Qed.

(** C3. On every 8-byte frame [isValidReading] returns, and it returns true
    exactly when byte 4 is 0x0D and the sum of bytes 0, 1 and 2 modulo 256
    is byte 3; so it returns false exactly when one of the two fails. *)
Theorem C3_validity_gate frame :
  is_frame frame = true ->
  exists v, isValidReading frame = Some v /\
    (v = true <-> Spec.isValid frame) /\
    (v = false <-> ~ Spec.isValid frame).
Proof.
  intros Hf. frame_bytes Hf.
  rewrite isValidReading_bytes, checksum_mod.
  eexists. split; [reflexivity|].
  unfold Spec.isValid. cbn [Spec.at_ nth Z.to_nat Pos.to_nat Pos.iter_op Nat.add].
  destruct (Z.eqb_spec b3 0x0D) as [E4|E4];
    destruct (Z.eqb_spec ((b + b0 + b1) mod 256) b2) as [E3|E3];
    cbn [andb]; split; split; intros; try tauto; try discriminate;
    try (split; assumption).
Qed.

Lemma C3_witness :
  exists v, isValidReading [0x50; 0x02; 0x0F; 0x61; 0x0D; 0; 0; 0] = Some v /\
    (v = true <-> Spec.isValid [0x50; 0x02; 0x0F; 0x61; 0x0D; 0; 0; 0]) /\
    (v = false <-> ~ Spec.isValid [0x50; 0x02; 0x0F; 0x61; 0x0D; 0; 0; 0]).
Proof.
  apply (C3_validity_gate [0x50; 0x02; 0x0F; 0x61; 0x0D; 0; 0; 0]).
  reflexivity.
Defined.

(** ** The polling loop *)

Lemma code_and_value_bytes b0 b1 b2 b3 b4 b5 b6 b7 :
  code_and_value [b0; b1; b2; b3; b4; b5; b6; b7] =
  Some (b0, Z.lor b2 (Z.shiftl b1 8)).
Proof. reflexivity. Qed.

Lemma big_endian_16 hi lo :
  0 <= lo < 256 -> Z.lor lo (Z.shiftl hi 8) = hi * 256 + lo.
Proof. intros H. rewrite Z.lor_comm. apply lor_shiftl8, H. Qed.

Lemma code_and_value_frame f :
  is_frame f = true ->
  code_and_value f = Some (Spec.at_ f 0, Spec.at_ f 1 * 256 + Spec.at_ f 2).
Proof.
  intros H. frame_bytes H. rewrite code_and_value_bytes.
  rewrite big_endian_16 by lia. reflexivity.
Qed.

Lemma isValidReading_frame f :
  is_frame f = true -> exists v, isValidReading f = Some v.
Proof.
  intros H. frame_bytes H. rewrite isValidReading_bytes. eexists; reflexivity.
Qed.

Section PollLoopFacts.
Context {St : Type}.
Variable on_co2 : Z -> St -> St.
Variable on_temperature : Z -> St -> St.

Let iteration' := iteration on_co2 on_temperature.
Let getReadings' := getReadings on_co2 on_temperature.
Let dispatch' := dispatch on_co2 on_temperature.

Lemma iteration_read_error key skip s :
  iteration' key skip ReadError s = (Exit, s, [Fatal_read]).
Proof. reflexivity. Qed.

Lemma iteration_skip key buffer s :
  is_frame buffer = true ->
  iteration' key true (ReadFull buffer) s =
  (Continue,
   dispatch' (Spec.at_ buffer 0)
             (Spec.at_ buffer 1 * 256 + Spec.at_ buffer 2) s,
   []).
Proof.
  intros H. unfold iteration', iteration.
  rewrite (code_and_value_frame buffer H). reflexivity.
Qed.

Lemma iteration_invalid key buffer decrypted s :
  decryptReading buffer key = Some decrypted ->
  isValidReading decrypted = Some false ->
  iteration' key false (ReadFull buffer) s =
  (Break, s, [Println_decryption_failed decrypted]).
Proof.
  intros D V. unfold iteration', iteration. rewrite D, V. reflexivity.
Qed.

Lemma iteration_valid key buffer decrypted s :
  is_frame decrypted = true ->
  decryptReading buffer key = Some decrypted ->
  isValidReading decrypted = Some true ->
  iteration' key false (ReadFull buffer) s =
  (Continue,
   dispatch' (Spec.at_ decrypted 0)
             (Spec.at_ decrypted 1 * 256 + Spec.at_ decrypted 2) s,
   []).
Proof.
  intros F D V. unfold iteration', iteration. rewrite D, V.
  rewrite (code_and_value_frame decrypted F). reflexivity.
Qed.

Lemma getReadings_stop key skip r rest s c s' ev :
  iteration' key skip r s = (c, s', ev) -> c <> Continue ->
  getReadings' key skip (r :: rest) s = (c, s', ev).
Proof.
  intros I N. unfold getReadings'. cbn [getReadings].
  fold iteration'. rewrite I. destruct c; congruence.
Qed.

Lemma getReadings_continue key skip r rest s s' ev :
  iteration' key skip r s = (Continue, s', ev) ->
  getReadings' key skip (r :: rest) s =
  (control_of (getReadings' key skip rest s'),
   state_of (getReadings' key skip rest s'),
   ev ++ log_of (getReadings' key skip rest s')).
Proof.
  intros I. unfold getReadings'. cbn [getReadings].
  fold iteration'. rewrite I.
  destruct (getReadings on_co2 on_temperature key skip rest s')
    as [[c s''] ev'].
  reflexivity.
Qed.

Lemma getReadings_app key skip pre rest s0 s ev :
  getReadings' key skip pre s0 = (Continue, s, ev) ->
  getReadings' key skip (pre ++ rest) s0 =
  (control_of (getReadings' key skip rest s),
   state_of (getReadings' key skip rest s),
   ev ++ log_of (getReadings' key skip rest s)).
Proof.
  revert s0 ev. induction pre as [|r pre IH]; intros s0 ev H.
  - cbn in H. injection H as <- <-.
    cbn [app]. destruct (getReadings' key skip rest s0) as [[c s'] ev'].
    reflexivity.
  - cbn [app].
    destruct (iteration' key skip r s0) as [[c s1] ev1] eqn:I.
    destruct c.
    + rewrite (getReadings_continue _ _ _ pre _ _ _ I) in H.
      rewrite (getReadings_continue _ _ _ (pre ++ rest) _ _ _ I).
      destruct (getReadings' key skip pre s1) as [[c2 s2] ev2] eqn:G.
      cbn [control_of state_of log_of fst snd] in H.
      injection H as -> -> <-.
      rewrite (IH s1 ev2 G).
      cbn [control_of state_of log_of fst snd].
      rewrite app_assoc. reflexivity.
    + rewrite (getReadings_stop _ _ _ pre _ _ _ _ I) in H by discriminate.
      discriminate H.
    + rewrite (getReadings_stop _ _ _ pre _ _ _ _ I) in H by discriminate.
      discriminate H.
    + rewrite (getReadings_stop _ _ _ pre _ _ _ _ I) in H by discriminate.
      discriminate H.
Qed.

(** What a field read through [get] shows after the loop has run on a
    prefix of the stream, when the [switch] writes [own value] to it for
    frames of kind [kind] and leaves it alone otherwise. *)
Section Reflects.
Context {A : Type}.
Variable get : St -> A.
Variable own : Z -> A.
Variable kind : Z.
Hypothesis get_dispatch : forall code value s,
  get (dispatch' code value s) = if code =? kind then own value else get s.

Lemma getReadings_reflects key skip reads s0 :
  is_frame key = true -> well_formed reads = true ->
  get (state_of (getReadings' key skip reads s0)) =
  match last_value kind (dispatched key skip reads) with
  | Some v => own v
  | None => get s0
  end.
Proof.
  intros Hk. revert s0. induction reads as [|r reads IH]; intros s0 W.
  - reflexivity.
  - cbn [well_formed forallb] in W. apply andb_prop in W as [Wr W].
    fold (well_formed reads) in W.
    destruct r as [buffer|]; [|reflexivity].
    assert (step : forall f,
      is_frame f = true ->
      iteration' key skip (ReadFull buffer) s0 =
        (Continue,
         dispatch' (Spec.at_ f 0) (Spec.at_ f 1 * 256 + Spec.at_ f 2) s0,
         []) ->
      dispatched key skip (ReadFull buffer :: reads) =
        f :: dispatched key skip reads ->
      get (state_of (getReadings' key skip (ReadFull buffer :: reads) s0)) =
      match last_value kind (dispatched key skip (ReadFull buffer :: reads))
      with Some v => own v | None => get s0 end).
    { intros f Ff I D.
      rewrite (getReadings_continue _ _ _ _ _ _ _ I), D.
      cbn [state_of fst snd]. fold (state_of (getReadings' key skip reads
        (dispatch' (Spec.at_ f 0) (Spec.at_ f 1 * 256 + Spec.at_ f 2) s0))).
      rewrite (IH _ W). cbn [last_value].
      destruct (last_value kind (dispatched key skip reads)); [reflexivity|].
      rewrite (code_and_value_frame f Ff), get_dispatch.
      destruct (Spec.at_ f 0 =? kind); reflexivity. }
    destruct skip.
    + apply (step buffer Wr); [apply iteration_skip, Wr | reflexivity].
    + pose proof (decryptReading_decode buffer key Wr Hk) as D.
      pose proof (decode_is_frame buffer key) as Fd.
      destruct (isValidReading_frame _ Fd) as [v V].
      destruct v.
      * apply (step _ Fd).
        -- apply iteration_valid; assumption.
        -- cbn [dispatched]. rewrite D, V. reflexivity.
      * rewrite (getReadings_stop _ _ _ reads _ _ _ _
                   (iteration_invalid key buffer _ s0 D V)) by discriminate.
        cbn [dispatched]. rewrite D, V. reflexivity.
Qed.

End Reflects.

(** With decryption enabled every frame that reached the [switch] passed
    the validity gate. *)
Lemma dispatched_valid key reads :
  Forall (fun f => isValidReading f = Some true) (dispatched key false reads).
Proof.
  induction reads as [|r reads IH]; [constructor|].
  destruct r as [buffer|]; [|constructor].
  cbn [dispatched].
  destruct (decryptReading buffer key) as [d|]; [|constructor].
  destruct (isValidReading d) as [[|]|] eqn:V; constructor; assumption.
Qed.

End PollLoopFacts.

(** ** Claims on the loop and the shared state *)

(** C4. With decryption enabled, a frame that decrypts to an invalid frame
    makes the loop log a warning and break: the loop returns [Break], not
    [Exit], the state is the one the previous iterations left, and nothing
    read afterwards changes it. A read failure instead ends with [Exit],
    the exit of the whole process. Both implementations. *)
Theorem C4_invalid_frame_stops_loop_only
    key buffer decrypted pre rest s0 s ev g0 g evg :
  decryptReading buffer key = Some decrypted ->
  isValidReading decrypted = Some false ->
  Mutex.getReadings key false pre s0 = (Continue, s, ev) ->
  Atomic.getReadings key false pre g0 = (Continue, g, evg) ->
  Mutex.getReadings key false (pre ++ ReadFull buffer :: rest) s0 =
    (Break, s, ev ++ [Println_decryption_failed decrypted]) /\
  Atomic.getReadings key false (pre ++ ReadFull buffer :: rest) g0 =
    (Break, g, evg ++ [Println_decryption_failed decrypted]) /\
  (forall skip,
     Mutex.getReadings key skip (ReadError :: rest) s = (Exit, s, [Fatal_read]) /\
     Atomic.getReadings key skip (ReadError :: rest) g = (Exit, g, [Fatal_read])).
Proof.
  intros D V Hs Hg. split; [|split].
  - unfold Mutex.getReadings in *.
    rewrite (getReadings_app _ _ _ _ _ (ReadFull buffer :: rest) _ _ _ Hs).
    rewrite (getReadings_stop _ _ _ _ _ rest _ _ _ _
               (iteration_invalid _ _ key buffer decrypted s D V))
      by discriminate.
    reflexivity.
  - unfold Atomic.getReadings in *.
    rewrite (getReadings_app _ _ _ _ _ (ReadFull buffer :: rest) _ _ _ Hg).
    rewrite (getReadings_stop _ _ _ _ _ rest _ _ _ _
               (iteration_invalid _ _ key buffer decrypted g D V))
      by discriminate.
    reflexivity.
  - intros skip. split; reflexivity.
Qed.

Lemma C4_witness :
  let key := [1; 2; 3; 4; 5; 6; 7; 8] in
  let pre := [ReadFull [42; 161; 163; 190; 73; 157; 154; 188]] in
  let bad := [1; 2; 3; 4; 5; 6; 7; 8] in
  let rest := [ReadFull [42; 161; 163; 190; 73; 157; 154; 188]; ReadError] in
  let decrypted := [252; 249; 138; 107; 121; 77; 141; 203] in
  let s := {| Mutex.co2 := 527; Mutex.temperature := 0%float |} in
  let g := {| Atomic.co2 := 527; Atomic.raw_temperature := 0 |} in
  Mutex.getReadings key false (pre ++ ReadFull bad :: rest) Mutex.state0 =
    (Break, s, [] ++ [Println_decryption_failed decrypted]) /\
  Atomic.getReadings key false (pre ++ ReadFull bad :: rest) Atomic.state0 =
    (Break, g, [] ++ [Println_decryption_failed decrypted]) /\
  (forall skip,
     Mutex.getReadings key skip (ReadError :: rest) s = (Exit, s, [Fatal_read]) /\
     Atomic.getReadings key skip (ReadError :: rest) g = (Exit, g, [Fatal_read])).
Proof.
  intros key pre bad rest decrypted s g.
  apply (C4_invalid_frame_stops_loop_only key bad decrypted pre rest
           Mutex.state0 s [] Atomic.state0 g []); reflexivity.
Defined.

Lemma dispatched_single key skip buffer frame :
  is_frame key = true -> is_frame buffer = true ->
  dispatched key skip [ReadFull buffer] = [frame] ->
  is_frame frame = true /\
  forall St (on_co2 on_temperature : Z -> St -> St) s,
    iteration on_co2 on_temperature key skip (ReadFull buffer) s =
    (Continue,
     dispatch on_co2 on_temperature (Spec.at_ frame 0)
       (Spec.at_ frame 1 * 256 + Spec.at_ frame 2) s,
     []).
Proof.
  intros Hk Hb D. destruct skip.
  - cbn in D. injection D as <-. split; [assumption|].
    intros. apply iteration_skip, Hb.
  - cbn [dispatched] in D.
    pose proof (decryptReading_decode buffer key Hb Hk) as E.
    rewrite E in D.
    destruct (isValidReading (Spec.decode buffer key)) as [[|]|] eqn:V;
      try discriminate D.
    injection D as <-. split; [apply decode_is_frame|].
    intros. apply iteration_valid; [apply decode_is_frame|assumption..].
Qed.

(** C5. For every frame that reaches the [switch], validated or passed
    through, and every prior state: kind 0x50 writes the value to the CO2
    field and leaves the temperature alone, kind 0x42 writes the
    temperature and leaves CO2 alone, every other kind changes nothing.
    Both implementations; in the second one the temperature field holds the
    raw value. *)
Theorem C5_kind_dispatch key skip buffer frame s g :
  is_frame key = true -> is_frame buffer = true ->
  dispatched key skip [ReadFull buffer] = [frame] ->
  let code := Spec.at_ frame 0 in
  let value := Spec.at_ frame 1 * 256 + Spec.at_ frame 2 in
  let s' := state_of (Mutex.iteration key skip (ReadFull buffer) s) in
  let g' := state_of (Atomic.iteration key skip (ReadFull buffer) g) in
  (code = 0x50 ->
     Mutex.Co2 s' = value /\ Mutex.Temperature s' = Mutex.Temperature s /\
     Atomic.co2 g' = value /\
     Atomic.raw_temperature g' = Atomic.raw_temperature g /\
     Atomic.Temperature g' = Atomic.Temperature g) /\
  (code = 0x42 ->
     Mutex.Co2 s' = Mutex.Co2 s /\ Mutex.Temperature s' = spec_celsius value /\
     Atomic.co2 g' = Atomic.co2 g /\ Atomic.Co2 g' = Atomic.Co2 g /\
     Atomic.raw_temperature g' = value /\
     Atomic.Temperature g' = spec_celsius value) /\
  (code <> 0x50 -> code <> 0x42 -> s' = s /\ g' = g).
Proof.
  intros Hk Hb D code value s' g'.
  destruct (dispatched_single key skip buffer frame Hk Hb D) as [_ I].
  subst s' g'. unfold Mutex.iteration, Atomic.iteration. rewrite !I.
  cbn [state_of fst snd]. fold code value. unfold dispatch.
  split; [|split].
  - intros ->. cbn. repeat split; reflexivity.
  - intros ->. cbn. repeat split; reflexivity.
  - intros N1 N2.
    destruct (Z.eqb_spec code 0x50); [contradiction|].
    destruct (Z.eqb_spec code 0x42); [contradiction|].
    split; reflexivity.
Qed.

Lemma C5_witness :
  let key := [1; 2; 3; 4; 5; 6; 7; 8] in
  let buffer := [0x42; 0x12; 0x39; 0xAA; 0xBB; 0; 0; 0] in
  let s := {| Mutex.co2 := 527; Mutex.temperature := 21.5%float |} in
  let g := {| Atomic.co2 := 527; Atomic.raw_temperature := 4714 |} in
  let code := Spec.at_ buffer 0 in
  let value := Spec.at_ buffer 1 * 256 + Spec.at_ buffer 2 in
  let s' := state_of (Mutex.iteration key true (ReadFull buffer) s) in
  let g' := state_of (Atomic.iteration key true (ReadFull buffer) g) in
  (code = 0x50 ->
     Mutex.Co2 s' = value /\ Mutex.Temperature s' = Mutex.Temperature s /\
     Atomic.co2 g' = value /\
     Atomic.raw_temperature g' = Atomic.raw_temperature g /\
     Atomic.Temperature g' = Atomic.Temperature g) /\
  (code = 0x42 ->
     Mutex.Co2 s' = Mutex.Co2 s /\ Mutex.Temperature s' = spec_celsius value /\
     Atomic.co2 g' = Atomic.co2 g /\ Atomic.Co2 g' = Atomic.Co2 g /\
     Atomic.raw_temperature g' = value /\
     Atomic.Temperature g' = spec_celsius value) /\
  (code <> 0x50 -> code <> 0x42 -> s' = s /\ g' = g).
Proof.
  intros key buffer s g.
  apply (C5_kind_dispatch key true buffer buffer s g); reflexivity.
Defined.

(** C7. With [skipDecryption] set, for every raw frame the kind is byte 0
    and the value the big-endian 16-bit integer of bytes 1 and 2; the frame
    is neither decrypted nor checked, whatever the key and the other bytes,
    and the iteration always continues without logging. A frame starting
    0x50, 0x02, 0x0F stores 527 ppm whatever bytes 3 to 7 are. *)
Theorem C7_skip_decryption key buffer s g :
  is_frame buffer = true ->
  Mutex.iteration key true (ReadFull buffer) s =
    (Continue,
     Mutex.dispatch (Spec.at_ buffer 0)
       (Spec.at_ buffer 1 * 256 + Spec.at_ buffer 2) s, []) /\
  Atomic.iteration key true (ReadFull buffer) g =
    (Continue,
     Atomic.dispatch (Spec.at_ buffer 0)
       (Spec.at_ buffer 1 * 256 + Spec.at_ buffer 2) g, []) /\
  (forall b3 b4 b5 b6 b7,
     buffer = [0x50; 0x02; 0x0F; b3; b4; b5; b6; b7] ->
     Mutex.Co2 (state_of (Mutex.iteration key true (ReadFull buffer) s)) = 527 /\
     Atomic.Co2 (state_of (Atomic.iteration key true (ReadFull buffer) g))
       = 527%float).
Proof.
  intros Hb. split; [|split].
  - apply (iteration_skip Mutex.case_0x50 Mutex.case_0x42), Hb.
  - apply (iteration_skip Atomic.case_0x50 Atomic.case_0x42), Hb.
  - intros b3 b4 b5 b6 b7 ->. split; reflexivity.
Qed.

Lemma C7_witness :
  let key := [1; 2; 3; 4; 5; 6; 7; 8] in
  let buffer := [0x50; 0x02; 0x0F; 0xDE; 0xAD; 0xBE; 0xEF; 0x00] in
  let s := Mutex.state0 in
  let g := Atomic.state0 in
  Mutex.iteration key true (ReadFull buffer) s =
    (Continue,
     Mutex.dispatch (Spec.at_ buffer 0)
       (Spec.at_ buffer 1 * 256 + Spec.at_ buffer 2) s, []) /\
  Atomic.iteration key true (ReadFull buffer) g =
    (Continue,
     Atomic.dispatch (Spec.at_ buffer 0)
       (Spec.at_ buffer 1 * 256 + Spec.at_ buffer 2) g, []) /\
  (forall b3 b4 b5 b6 b7,
     buffer = [0x50; 0x02; 0x0F; b3; b4; b5; b6; b7] ->
     Mutex.Co2 (state_of (Mutex.iteration key true (ReadFull buffer) s)) = 527 /\
     Atomic.Co2 (state_of (Atomic.iteration key true (ReadFull buffer) g))
       = 527%float).
Proof.
  intros key buffer s g.
  apply (C7_skip_decryption key buffer s g). reflexivity.
Defined.

(** C8, as stated, fails when [skipDecryption] is set: the frame below does
    not pass [isValidReading], yet the iteration that reads it stores its
    value 527 in the CO2 field, in both implementations. So it is not true
    that a frame failing validation is never reflected. *)
Lemma C8_counterexample :
  let key := [1; 2; 3; 4; 5; 6; 7; 8] in
  let buffer := [0x50; 0x02; 0x0F; 0; 0; 0; 0; 0] in
  isValidReading buffer = Some false /\
  Mutex.Co2 Mutex.state0 = 0 /\
  Mutex.Co2
    (state_of (Mutex.getReadings key true [ReadFull buffer] Mutex.state0))
    = 527 /\
  Atomic.co2
    (state_of (Atomic.getReadings key true [ReadFull buffer] Atomic.state0))
    = 527 /\
  ~ (forall key skip buffer frame s g,
       is_frame key = true -> is_frame buffer = true ->
       (if skip : bool then Some buffer else decryptReading buffer key)
         = Some frame ->
       isValidReading frame = Some false ->
       state_of (Mutex.iteration key skip (ReadFull buffer) s) = s /\
       state_of (Atomic.iteration key skip (ReadFull buffer) g) = g).
Proof.
  intros key buffer. repeat (split; [reflexivity|]).
  intros H.
  destruct (H key true buffer buffer Mutex.state0 Atomic.state0
              eq_refl eq_refl eq_refl eq_refl) as [E _].
  discriminate E.
Qed.

Lemma Mutex_Co2_dispatch code value s :
  Mutex.Co2 (dispatch Mutex.case_0x50 Mutex.case_0x42 code value s) =
  if code =? 0x50 then value else Mutex.Co2 s.
Proof.
  unfold dispatch. destruct (code =? 0x50); [reflexivity|].
  destruct (code =? 0x42); reflexivity.
Qed.

Lemma Mutex_Temperature_dispatch code value s :
  Mutex.Temperature (dispatch Mutex.case_0x50 Mutex.case_0x42 code value s) =
  if code =? 0x42 then spec_celsius value else Mutex.Temperature s.
Proof.
  unfold dispatch. destruct (Z.eqb_spec code 0x50) as [->|]; [reflexivity|].
  destruct (code =? 0x42); reflexivity.
Qed.

Lemma Atomic_co2_dispatch code value g :
  Atomic.co2 (dispatch Atomic.case_0x50 Atomic.case_0x42 code value g) =
  if code =? 0x50 then value else Atomic.co2 g.
Proof.
  unfold dispatch. destruct (code =? 0x50); [reflexivity|].
  destruct (code =? 0x42); reflexivity.
Qed.

Lemma Atomic_raw_temperature_dispatch code value g :
  Atomic.raw_temperature
    (dispatch Atomic.case_0x50 Atomic.case_0x42 code value g) =
  if code =? 0x42 then value else Atomic.raw_temperature g.
Proof.
  unfold dispatch. destruct (Z.eqb_spec code 0x50) as [->|]; [reflexivity|].
  destruct (code =? 0x42); reflexivity.
Qed.

Lemma dispatched_skip key buffers :
  dispatched key true (map ReadFull buffers) = buffers.
Proof.
  induction buffers as [|b bs IH]; [reflexivity|].
  cbn [map dispatched]. rewrite IH. reflexivity.
Qed.

(** C8, amended. After any prefix of the device stream, from any initial
    state, each field shows the value of the last frame of its kind among
    the frames that reached the [switch], or its initial value if there is
    none. With decryption enabled those frames are the decrypted frames up
    to the first invalid one, and each of them passed [isValidReading]; with
    [skipDecryption] they are the raw frames as read, unchecked. *)
Theorem C8_state_reflects_dispatched_frames key skip reads s0 g0 :
  is_frame key = true -> well_formed reads = true ->
  let s := state_of (Mutex.getReadings key skip reads s0) in
  let g := state_of (Atomic.getReadings key skip reads g0) in
  let frames := dispatched key skip reads in
  Mutex.Co2 s = default (Mutex.Co2 s0) (last_value 0x50 frames) /\
  Mutex.Temperature s =
    default (Mutex.Temperature s0) (spec_celsius <$> last_value 0x42 frames) /\
  Atomic.co2 g = default (Atomic.co2 g0) (last_value 0x50 frames) /\
  Atomic.raw_temperature g =
    default (Atomic.raw_temperature g0) (last_value 0x42 frames) /\
  (skip = false ->
     Forall (fun f => isValidReading f = Some true) frames) /\
  (skip = true -> forall buffers,
     reads = map ReadFull buffers -> frames = buffers).
Proof.
  intros Hk W s g frames. subst s g frames.
  unfold Mutex.getReadings, Atomic.getReadings.
  rewrite (getReadings_reflects _ _ Mutex.Co2 (fun v => v) 0x50
             Mutex_Co2_dispatch key skip reads s0 Hk W).
  rewrite (getReadings_reflects _ _ Mutex.Temperature spec_celsius 0x42
             Mutex_Temperature_dispatch key skip reads s0 Hk W).
  rewrite (getReadings_reflects _ _ Atomic.co2 (fun v => v) 0x50
             Atomic_co2_dispatch key skip reads g0 Hk W).
  rewrite (getReadings_reflects _ _ Atomic.raw_temperature (fun v => v) 0x42
             Atomic_raw_temperature_dispatch key skip reads g0 Hk W).
  split; [|split; [|split; [|split; [|split]]]].
  - destruct (last_value 0x50 (dispatched key skip reads)); reflexivity.
  - destruct (last_value 0x42 (dispatched key skip reads)); reflexivity.
  - destruct (last_value 0x50 (dispatched key skip reads)); reflexivity.
  - destruct (last_value 0x42 (dispatched key skip reads)); reflexivity.
  - intros ->. apply dispatched_valid.
  - intros -> buffers ->. apply dispatched_skip.
Qed.

Lemma C8_witness :
  let key := [1; 2; 3; 4; 5; 6; 7; 8] in
  let reads := [ReadFull [42; 161; 163; 190; 73; 157; 154; 188];
                ReadFull [1; 2; 3; 4; 5; 6; 7; 8];
                ReadFull [42; 161; 163; 190; 73; 157; 154; 188]] in
  let s := state_of (Mutex.getReadings key false reads Mutex.state0) in
  let g := state_of (Atomic.getReadings key false reads Atomic.state0) in
  let frames := dispatched key false reads in
  Mutex.Co2 s = default (Mutex.Co2 Mutex.state0) (last_value 0x50 frames) /\
  Mutex.Temperature s =
    default (Mutex.Temperature Mutex.state0)
            (spec_celsius <$> last_value 0x42 frames) /\
  Atomic.co2 g = default (Atomic.co2 Atomic.state0) (last_value 0x50 frames) /\
  Atomic.raw_temperature g =
    default (Atomic.raw_temperature Atomic.state0)
            (last_value 0x42 frames) /\
  (false = false ->
     Forall (fun f => isValidReading f = Some true) frames) /\
  (false = true -> forall buffers,
     reads = map ReadFull buffers -> frames = buffers).
Proof.
  intros key reads.
  apply (C8_state_reflects_dispatched_frames key false reads
           Mutex.state0 Atomic.state0); reflexivity.
Defined.

(** ** The temperature conversion and the initial state *)

Lemma forall_from_spec f count : forall lo,
  forall_from f lo count = true ->
  forall z, lo <= z < lo + Z.of_nat count -> f z = true.
Proof.
  induction count as [|c IH]; intros lo H z Hz; [lia|].
  cbn [forall_from] in H. apply andb_prop in H as [H0 H1].
  destruct (Z.eq_dec z lo) as [->|N]; [assumption|].
  apply (IH (lo + 1) H1). lia.
Qed.

Lemma forall_below f n :
  forall_from f 0 (Z.to_nat n) = true ->
  forall z, 0 <= z < n -> f z = true.
Proof.
  intros H z Hz. apply (forall_from_spec f (Z.to_nat n) 0 H). lia.
Qed.

(** What the program computes, on all 65536 raw values: the binary64
    number nearest to [binary64_hundredths raw / 100]. *)
Lemma spec_celsius_hundredths raw :
  0 <= raw < 65536 ->
  PrimFloat.Leibniz.eqb (spec_celsius raw)
                        (hundredths (binary64_hundredths raw)) = true.
Proof.
  apply (forall_below
           (fun raw => PrimFloat.Leibniz.eqb
                         (spec_celsius raw)
                         (hundredths (binary64_hundredths raw))) 65536).
  vm_compute. reflexivity.
Qed.

(** C6, as stated, fails on half-cent ties. For the raw value 4210 the
    formula is [round((263.125 - 273.15) * 100) / 100 = round(-1002.5) / 100
    = -10.03]; both implementations expose -10.02, because in binary64 the
    product is just above -1002.5. So it is not true that for every raw
    value the program exposes the formula's value. *)
Lemma C6_counterexample :
  exact_hundredths 4210 = -1003 /\
  hundredths (exact_hundredths 4210) = (-10.03)%float /\
  Mutex.Temperature (Mutex.dispatch 0x42 4210 Mutex.state0)
    = (-10.02)%float /\
  Atomic.Temperature (Atomic.dispatch 0x42 4210 Atomic.state0)
    = (-10.02)%float /\
  ~ (forall raw s,
       0 <= raw < 65536 ->
       PrimFloat.Leibniz.eqb
         (Mutex.Temperature (Mutex.dispatch 0x42 raw s))
         (hundredths (exact_hundredths raw)) = true) /\
  ~ (forall raw g,
       0 <= raw < 65536 ->
       PrimFloat.Leibniz.eqb
         (Atomic.Temperature (Atomic.dispatch 0x42 raw g))
         (hundredths (exact_hundredths raw)) = true).
Proof.
  split; [reflexivity|].
  split; [vm_compute; reflexivity|].
  split; [vm_compute; reflexivity|].
  split; [vm_compute; reflexivity|].
  split.
  - intros H. specialize (H 4210 Mutex.state0 ltac:(lia)).
    vm_compute in H. discriminate H.
  - intros H. specialize (H 4210 Atomic.state0 ltac:(lia)).
    vm_compute in H. discriminate H.
Qed.

(** C6, amended. For every raw 16-bit temperature value, the Celsius value
    read through [Temperature] after the value has been stored is, in both
    implementations, the binary64 number nearest to [n / 100], where [n] is
    [(raw/16 - 273.15) * 100] rounded exactly to the nearest integer,
    halves away from zero, except on the half-cent ties [raw mod 4 = 2]
    with [raw < 4372] or [20758 <= raw <= 25338], where [n] is one
    hundredth nearer to zero. Off those ties this is the value of the
    formula; the raw value 4665 gives 18.41. *)
Theorem C6_temperature_conversion raw s g :
  0 <= raw < 65536 ->
  PrimFloat.Leibniz.eqb
    (Mutex.Temperature (Mutex.dispatch 0x42 raw s))
    (hundredths (binary64_hundredths raw)) = true /\
  PrimFloat.Leibniz.eqb
    (Atomic.Temperature (Atomic.dispatch 0x42 raw g))
    (hundredths (binary64_hundredths raw)) = true /\
  binary64_hundredths raw =
    (if (raw mod 4 =? 2)
        && ((raw <? 4372) || ((20758 <=? raw) && (raw <=? 25338)))
     then exact_hundredths raw - Z.sgn (exact_hundredths raw)
     else exact_hundredths raw) /\
  Mutex.Temperature (Mutex.dispatch 0x42 4665 s) = 18.41%float /\
  Atomic.Temperature (Atomic.dispatch 0x42 4665 g) = 18.41%float.
Proof.
  intros Hraw.
  change (Mutex.Temperature (Mutex.dispatch 0x42 raw s))
    with (spec_celsius raw).
  change (Atomic.Temperature (Atomic.dispatch 0x42 raw g))
    with (spec_celsius raw).
  split; [apply spec_celsius_hundredths, Hraw|].
  split; [apply spec_celsius_hundredths, Hraw|].
  split; [reflexivity|].
  split; vm_compute; reflexivity.
Qed.

Lemma C6_witness :
  PrimFloat.Leibniz.eqb
    (Mutex.Temperature (Mutex.dispatch 0x42 4210 Mutex.state0))
    (hundredths (-1002)) = true /\
  PrimFloat.Leibniz.eqb
    (Atomic.Temperature (Atomic.dispatch 0x42 4210 Atomic.state0))
    (hundredths (-1002)) = true /\
  binary64_hundredths 4210 = -1002 /\
  Mutex.Temperature (Mutex.dispatch 0x42 4665 Mutex.state0) = 18.41%float /\
  Atomic.Temperature (Atomic.dispatch 0x42 4665 Atomic.state0)
    = 18.41%float.
Proof.
  apply (C6_temperature_conversion 4210 Mutex.state0 Atomic.state0). lia.
Defined.

(** C9. Before anything is stored, the first implementation reads 0 ppm and
    0 degrees; the second one reads 0 ppm but converts the raw value 0 and
    reads -273.15 degrees. *)
Theorem C9_initial_readings :
  Mutex.Co2 Mutex.state0 = 0 /\
  Mutex.Temperature Mutex.state0 = 0%float /\
  Atomic.Co2 Atomic.state0 = 0%float /\
  Atomic.Temperature Atomic.state0 = (-273.15)%float /\
  Atomic.Temperature Atomic.state0 <> 0%float.
Proof.
  split; [reflexivity|]. split; [reflexivity|]. split; [reflexivity|].
  split; [vm_compute; reflexivity|].
  vm_compute. intros H. discriminate H.
Qed.

(** * Further properties of the code *)

(** ** [decryptReading] and [isValidReading] on slices of any length *)

Lemma decryptReading_prefix b0 b1 b2 b3 b4 b5 b6 b7 bs
    k0 k1 k2 k3 k4 k5 k6 k7 ks :
  decryptReading (b0 :: b1 :: b2 :: b3 :: b4 :: b5 :: b6 :: b7 :: bs)
                 (k0 :: k1 :: k2 :: k3 :: k4 :: k5 :: k6 :: k7 :: ks) =
  decryptReading [b0; b1; b2; b3; b4; b5; b6; b7]
                 [k0; k1; k2; k3; k4; k5; k6; k7].
Proof. reflexivity. Qed.

Lemma decryptReading_short_buffer buffer key :
  (length buffer < 8)%nat -> decryptReading buffer key = None.
Proof.
  intros H.
  do 8 (destruct buffer as [|? buffer]; [reflexivity|]).
  cbn [length] in H. lia.
Qed.

Lemma decryptReading_short_key buffer key :
  (8 <= length buffer)%nat -> (length key < 8)%nat ->
  decryptReading buffer key = None.
Proof.
  intros Hb Hk.
  do 8 (destruct buffer as [|? buffer]; [cbn [length] in Hb; lia|]).
  do 8 (destruct key as [|? key]; [reflexivity|]).
  cbn [length] in Hk. lia.
Qed.

Lemma decrypted_byte_range cur prev c : 0 <= decrypted_byte cur prev c < 256.
Proof. apply wrap8_range. Qed.

(** X1. [decryptReading] panics exactly when the buffer or the key has
    fewer than eight bytes. Otherwise it returns eight bytes, each in
    [0, 256), computed from the first eight bytes of the buffer and of the
    key only. *)
Theorem decryptReading_defined_iff buffer key :
  (decryptReading buffer key = None <->
     (length buffer < 8 \/ length key < 8)%nat) /\
  ((8 <= length buffer)%nat -> (8 <= length key)%nat ->
     exists out,
       decryptReading buffer key = Some out /\
       is_frame out = true /\
       decryptReading (take 8 buffer) (take 8 key) = Some out).
Proof.
  assert (Some_case : (8 <= length buffer)%nat -> (8 <= length key)%nat ->
     exists out,
       decryptReading buffer key = Some out /\
       is_frame out = true /\
       decryptReading (take 8 buffer) (take 8 key) = Some out).
  { intros Hb Hk.
    do 8 (destruct buffer as [|? buffer]; [cbn [length] in Hb; lia|]).
    do 8 (destruct key as [|? key]; [cbn [length] in Hk; lia|]).
    rewrite decryptReading_prefix. cbn [take firstn].
    rewrite decryptReading_bytes. eexists. split; [reflexivity|].
    split; [|reflexivity].
    apply is_frame_intro; apply decrypted_byte_range. }
  split; [|exact Some_case].
  split.
  - intros N.
    destruct (Nat.lt_ge_cases (length buffer) 8) as [|Hb]; [left; lia|].
    destruct (Nat.lt_ge_cases (length key) 8) as [|Hk]; [right; lia|].
    destruct (Some_case Hb Hk) as (out & E & _). congruence.
  - intros [H|H].
    + apply decryptReading_short_buffer, H.
    + destruct (Nat.lt_ge_cases (length buffer) 8) as [Hb|Hb].
      * apply decryptReading_short_buffer, Hb.
      * apply decryptReading_short_key; assumption.
Qed.

Lemma isValidReading_prefix b0 b1 b2 b3 b4 bs :
  isValidReading (b0 :: b1 :: b2 :: b3 :: b4 :: bs) =
  Some ((b4 =? 0x0D)
        && (Z.land (wrap8 (wrap8 (b0 + b1) + b2)) 0xFF =? b3)).
Proof.
  change (isValidReading (b0 :: b1 :: b2 :: b3 :: b4 :: bs))
    with (if negb (b4 =? 0x0D) then Some false
          else if negb (Z.land (wrap8 (wrap8 (b0 + b1) + b2)) 0xFF =? b3)
               then Some false else Some true).
  destruct (b4 =? 0x0D); [|reflexivity].
  destruct (_ =? b3); reflexivity.
Qed.

(** X2. [isValidReading] panics exactly when the slice has fewer than five
    bytes; on a longer slice its answer is that on the first five bytes,
    so bytes 5 to 7 of a frame are never looked at. *)
Theorem isValidReading_defined_iff buffer :
  (isValidReading buffer = None <-> (length buffer < 5)%nat) /\
  ((5 <= length buffer)%nat ->
     exists v, isValidReading buffer = Some v /\
               isValidReading (take 5 buffer) = Some v).
Proof.
  assert (Some_case : (5 <= length buffer)%nat ->
     exists v, isValidReading buffer = Some v /\
               isValidReading (take 5 buffer) = Some v).
  { intros H.
    do 5 (destruct buffer as [|? buffer]; [cbn [length] in H; lia|]).
    cbn [take firstn]. rewrite !isValidReading_prefix.
    eexists; split; reflexivity. }
  split; [|exact Some_case]. split.
  - intros N. destruct (Nat.lt_ge_cases (length buffer) 5) as [|H]; [lia|].
    destruct (Some_case H) as (v & E & _). congruence.
  - intros H.
    do 5 (destruct buffer as [|? buffer]; [reflexivity|]).
    cbn [length] in H. lia.
Qed.

(** X3. The check detects every single-byte error in the bytes it covers:
    if a valid frame has one of its bytes 0 to 4 replaced by a different
    byte, the result is not valid. *)
Theorem isValidReading_detects_single_byte_error frame (i : nat) v :
  is_frame frame = true -> isValidReading frame = Some true ->
  (i < 5)%nat -> 0 <= v < 256 -> frame !! i <> Some v ->
  isValidReading (<[i := v]> frame) = Some false.
Proof.
  intros Hf V Hi Hv N. frame_bytes Hf.
  rewrite isValidReading_bytes, checksum_mod in V.
  injection V as V. apply andb_prop in V as [V4 V3].
  apply Z.eqb_eq in V4, V3.
  assert (flip : forall x y : Z, x <> y -> (x =? y) = false)
    by (intros; apply Z.eqb_neq; assumption).
  do 5 (destruct i as [|i]; [
    cbn [lookup list_lookup] in N;
    cbn [insert list_insert];
    rewrite isValidReading_bytes, checksum_mod;
    f_equal; apply andb_false_iff;
    first [ right; apply flip; intros E;
            apply N; f_equal; Z.div_mod_to_equations; lia
          | left; apply flip; intros E; apply N; f_equal; lia ] |]).
  lia.
Qed.

Lemma isValidReading_detects_witness :
  isValidReading (<[1%nat := 0x03]> [0x50; 0x02; 0x0F; 0x61; 0x0D; 0; 0; 0])
  = Some false.
Proof.
  apply (isValidReading_detects_single_byte_error
           [0x50; 0x02; 0x0F; 0x61; 0x0D; 0; 0; 0] 1 0x03);
    [reflexivity | reflexivity | lia | lia | discriminate].
Defined.

(** ** The key *)

Lemma lxor_inj_l a k k' : Z.lxor a k = Z.lxor a k' -> k = k'.
Proof.
  intros E. rewrite <- (Z.lxor_0_l k), <- (Z.lxor_0_l k').
  rewrite <- (Z.lxor_nilpotent a), !Z.lxor_assoc, E. reflexivity.
Qed.

(** X4. A different key never gives the same decryption: for a fixed raw
    frame, [decryptReading] is injective in the key. *)
Theorem decryptReading_key_injective raw key1 key2 :
  is_frame raw = true -> is_frame key1 = true -> is_frame key2 = true ->
  decryptReading raw key1 = decryptReading raw key2 -> key1 = key2.
Proof.
  intros Hr H1 H2 E.
  rewrite !decryptReading_decode in E by assumption.
  assert (D : Spec.decode raw key1 = Spec.decode raw key2) by congruence.
  assert (EE : Spec.encode (Spec.decode raw key2) key1 =
               Spec.encode (Spec.decode raw key2) key2).
  { rewrite <- D at 1. rewrite !encode_decode by assumption. reflexivity. }
  clear D E.
  destruct (is_frame_inv _ (decode_is_frame raw key2))
    as (d0 & d1 & d2 & d3 & d4 & d5 & d6 & d7 & Ed & _ & _).
  rewrite Ed in EE. clear Ed Hr. frame_bytes H1. frame_bytes H2.
  rewrite !Spec_encode_bytes in EE. cbv zeta in EE.
  injection EE as ? ? ? ? ? ? ? ?.
  repeat match goal with
         | H : Z.lxor _ _ = Z.lxor _ _ |- _ => apply lxor_inj_l in H
         end.
  subst. reflexivity.
Qed.

Lemma decryptReading_key_injective_witness :
  [1; 2; 3; 4; 5; 6; 7; 8] = [1; 2; 3; 4; 5; 6; 7; 8].
Proof.
  apply (decryptReading_key_injective [42; 161; 163; 190; 73; 157; 154; 188]
           [1; 2; 3; 4; 5; 6; 7; 8] [1; 2; 3; 4; 5; 6; 7; 8]); reflexivity.
Defined.

(** ** From the device to the state *)

Lemma plain_frame_is_frame code value t5 t6 t7 :
  0 <= code < 256 -> 0 <= value < 65536 ->
  0 <= t5 < 256 -> 0 <= t6 < 256 -> 0 <= t7 < 256 ->
  is_frame (plain_frame code value t5 t6 t7) = true.
Proof.
  intros. apply is_frame_intro; try assumption; try lia;
    Z.div_mod_to_equations; lia.
Qed.

Lemma plain_frame_valid code value t5 t6 t7 :
  0 <= code < 256 -> 0 <= value < 65536 ->
  isValidReading (plain_frame code value t5 t6 t7) = Some true.
Proof.
  intros Hc Hv. unfold plain_frame.
  rewrite isValidReading_bytes, checksum_mod, !Z.eqb_refl. reflexivity.
Qed.

Lemma plain_frame_code_and_value code value t5 t6 t7 :
  0 <= value < 65536 ->
  code_and_value (plain_frame code value t5 t6 t7) = Some (code, value).
Proof.
  intros Hv. unfold plain_frame. rewrite code_and_value_bytes.
  rewrite big_endian_16 by (apply Z.mod_pos_bound; lia).
  do 2 f_equal. Z.div_mod_to_equations. lia.
Qed.

Lemma decryptReading_encode f key :
  is_frame f = true -> is_frame key = true ->
  decryptReading (Spec.encode f key) key = Some f.
Proof.
  intros Hf Hk.
  rewrite decryptReading_decode by (try apply encode_is_frame; assumption).
  f_equal. apply decode_encode; assumption.
Qed.

(** X5. One polling iteration end to end, with decryption enabled: when the
    device sends the obfuscation under the session key of a frame in the
    valid layout (kind, 16-bit value, checksum, terminator), the iteration
    continues without logging and the state is the one the [switch]
    produces for that kind and value. In particular kind 0x50 stores the
    value as CO2 and leaves the temperature as it was. Whatever handlers
    the two [case]s run, so in both implementations. *)
Theorem iteration_of_obfuscated_frame {St : Type}
    (on_co2 on_temperature : Z -> St -> St) key code value t5 t6 t7 s :
  is_frame key = true ->
  0 <= code < 256 -> 0 <= value < 65536 ->
  0 <= t5 < 256 -> 0 <= t6 < 256 -> 0 <= t7 < 256 ->
  iteration on_co2 on_temperature key false
    (ReadFull (Spec.encode (plain_frame code value t5 t6 t7) key)) s =
  (Continue,
   if code =? 0x50 then on_co2 value s
   else if code =? 0x42 then on_temperature value s
   else s,
   []).
Proof.
  intros Hk Hc Hv H5 H6 H7.
  pose proof (plain_frame_is_frame code value t5 t6 t7 Hc Hv H5 H6 H7) as Hf.
  unfold iteration.
  rewrite (decryptReading_encode _ key Hf Hk).
  rewrite (plain_frame_valid code value t5 t6 t7 Hc Hv).
  rewrite (plain_frame_code_and_value code value t5 t6 t7 Hv).
  reflexivity.
Qed.

Lemma iteration_of_obfuscated_frame_witness :
  Mutex.iteration [1; 2; 3; 4; 5; 6; 7; 8] false
    (ReadFull (Spec.encode (plain_frame 0x50 527 0 0 0)
                 [1; 2; 3; 4; 5; 6; 7; 8]))
    {| Mutex.co2 := 400; Mutex.temperature := 21.5%float |} =
  (Continue, {| Mutex.co2 := 527; Mutex.temperature := 21.5%float |}, []).
Proof.
  apply (iteration_of_obfuscated_frame Mutex.case_0x50 Mutex.case_0x42
           [1; 2; 3; 4; 5; 6; 7; 8] 0x50 527 0 0 0
           {| Mutex.co2 := 400; Mutex.temperature := 21.5%float |});
    first [reflexivity | lia].
Defined.

(** ** How the loop ends *)

Section LoopOutcome.
Context {St : Type}.
Variable on_co2 : Z -> St -> St.
Variable on_temperature : Z -> St -> St.

Let iteration' := iteration on_co2 on_temperature.
Let getReadings' := getReadings on_co2 on_temperature.

(** The three ways an iteration on a well-formed read can go. *)
Lemma iteration_cases key skip r s :
  is_frame key = true -> well_formed [r] = true ->
  (exists s', iteration' key skip r s = (Continue, s', []) /\
              r <> ReadError) \/
  (skip = false /\ exists buffer decrypted,
     r = ReadFull buffer /\
     decryptReading buffer key = Some decrypted /\
     isValidReading decrypted = Some false /\
     iteration' key skip r s =
       (Break, s, [Println_decryption_failed decrypted])) \/
  (r = ReadError /\ iteration' key skip r s = (Exit, s, [Fatal_read])).
Proof.
  intros Hk W. destruct r as [buffer|].
  - cbn [well_formed forallb] in W. rewrite andb_true_r in W.
    destruct skip.
    + left. eexists. split; [apply iteration_skip, W | discriminate].
    + pose proof (decryptReading_decode buffer key W Hk) as D.
      pose proof (decode_is_frame buffer key) as Fd.
      destruct (isValidReading_frame _ Fd) as [[|] V].
      * left. eexists.
        split; [|discriminate].
        apply (iteration_valid _ _ key buffer (Spec.decode buffer key));
          assumption.
      * right; left. split; [reflexivity|].
        exists buffer, (Spec.decode buffer key).
        repeat split; try assumption.
        apply iteration_invalid; assumption.
  - right; right. split; reflexivity.
Qed.

Lemma getReadings_cases key skip reads s0 :
  is_frame key = true -> well_formed reads = true ->
  let r := getReadings' key skip reads s0 in
  (control_of r = Continue /\ log_of r = [] /\ ~ In ReadError reads) \/
  (control_of r = Break /\ skip = false /\
   exists buffer decrypted,
     In (ReadFull buffer) reads /\
     decryptReading buffer key = Some decrypted /\
     isValidReading decrypted = Some false /\
     log_of r = [Println_decryption_failed decrypted]) \/
  (control_of r = Exit /\ In ReadError reads /\ log_of r = [Fatal_read]).
Proof.
  intros Hk. revert s0. induction reads as [|r reads IH]; intros s0 W.
  - left. repeat split. intros [].
  - cbn [well_formed forallb] in W. apply andb_prop in W as [Wr W].
    fold (well_formed reads) in W.
    assert (W1 : well_formed [r] = true)
      by (cbn [well_formed forallb]; rewrite Wr; reflexivity).
    destruct (iteration_cases key skip r s0 Hk W1)
      as [(s' & I & Nr) | [(Hs & buffer & d & -> & D & V & I) | (-> & I)]].
    + cbv zeta. unfold getReadings'.
      rewrite (getReadings_continue _ _ _ _ _ reads _ _ _ I).
      cbn [control_of log_of fst snd app].
      fold (control_of (getReadings on_co2 on_temperature key skip reads s')).
      fold (log_of (getReadings on_co2 on_temperature key skip reads s')).
      destruct (IH s' W)
        as [(C & L & N) | [(C & Hs & b & d & Hin & D & V & L) | (C & Hin & L)]].
      * left. repeat split; try assumption.
        intros [E|E]; [congruence | exact (N E)].
      * right; left. repeat split; try assumption.
        exists b, d. repeat split; try assumption. right; assumption.
      * right; right. repeat split; try assumption. right; assumption.
    + right; left. cbv zeta. unfold getReadings'.
      rewrite (getReadings_stop _ _ _ _ _ reads _ _ _ _ I) by discriminate.
      repeat split; try assumption.
      exists buffer, d. repeat split; try assumption. left; reflexivity.
    + right; right. cbv zeta. unfold getReadings'.
      rewrite (getReadings_stop _ _ _ _ _ reads _ _ _ _ I) by discriminate.
      repeat split. left; reflexivity.
Qed.

(** X6. On reads that fill the buffer and with an 8-byte key the loop never
    panics, and it ends in exactly one of three ways: still running with
    nothing logged and no failed read so far; broken off, only with
    decryption enabled, having logged the one decrypted frame that was not
    valid; or exited, having logged the failed read. *)
Theorem getReadings_outcome key skip reads s0 :
  is_frame key = true -> well_formed reads = true ->
  let r := getReadings' key skip reads s0 in
  (control_of r = Continue /\ log_of r = [] /\ ~ In ReadError reads) \/
  (control_of r = Break /\ skip = false /\
   exists buffer decrypted,
     In (ReadFull buffer) reads /\
     decryptReading buffer key = Some decrypted /\
     isValidReading decrypted = Some false /\
     log_of r = [Println_decryption_failed decrypted]) \/
  (control_of r = Exit /\ In ReadError reads /\ log_of r = [Fatal_read]).
Proof. exact (getReadings_cases key skip reads s0). Qed.

(** X7. With [skipDecryption] the loop never breaks: it runs until the
    first failed read and then exits, so it has exited exactly when the
    reads so far contain a failure. *)
Theorem getReadings_skip_ends_on_read_error_only key reads s0 :
  is_frame key = true -> well_formed reads = true ->
  let r := getReadings' key true reads s0 in
  control_of r <> Break /\ control_of r <> Panic /\
  (control_of r = Exit <-> In ReadError reads).
Proof.
  intros Hk W r.
  destruct (getReadings_cases key true reads s0 Hk W)
    as [(C & L & N) | [(C & Hs & _) | (C & Hin & L)]];
    fold r in C; try discriminate Hs; rewrite C.
  - repeat split; try discriminate. intros E; contradiction.
  - repeat split; try discriminate. intros _; assumption.
Qed.

(** X8. Once the loop has stopped, nothing that could still be read
    matters: the result on a longer stream is the result on the prefix. *)
Theorem getReadings_stopped_is_final key skip pre rest s0 :
  control_of (getReadings' key skip pre s0) <> Continue ->
  getReadings' key skip (pre ++ rest) s0 = getReadings' key skip pre s0.
Proof.
  revert s0. induction pre as [|r pre IH]; intros s0 N.
  - cbn in N. congruence.
  - cbn [app].
    destruct (iteration' key skip r s0) as [[c s1] ev1] eqn:I.
    destruct c.
    + unfold getReadings' in *.
      rewrite (getReadings_continue _ _ _ _ _ pre _ _ _ I) in N |- *.
      rewrite (getReadings_continue _ _ _ _ _ (pre ++ rest) _ _ _ I).
      cbn [control_of fst] in N.
      fold (control_of (getReadings on_co2 on_temperature key skip pre s1))
        in N.
      rewrite (IH s1 N). reflexivity.
    + unfold getReadings'.
      rewrite !(getReadings_stop _ _ _ _ _ _ _ _ _ _ I) by discriminate.
      reflexivity.
    + unfold getReadings'.
      rewrite !(getReadings_stop _ _ _ _ _ _ _ _ _ _ I) by discriminate.
      reflexivity.
    + unfold getReadings'.
      rewrite !(getReadings_stop _ _ _ _ _ _ _ _ _ _ I) by discriminate.
      reflexivity.
Qed.

End LoopOutcome.

Lemma getReadings_outcome_witness :
  let r := Mutex.getReadings [1; 2; 3; 4; 5; 6; 7; 8] false
             [ReadFull [42; 161; 163; 190; 73; 157; 154; 188];
              ReadFull [1; 2; 3; 4; 5; 6; 7; 8]; ReadError] Mutex.state0 in
  control_of r = Break /\
  log_of r =
    [Println_decryption_failed [252; 249; 138; 107; 121; 77; 141; 203]].
Proof.
  intros r.
  destruct (getReadings_outcome Mutex.case_0x50 Mutex.case_0x42
              [1; 2; 3; 4; 5; 6; 7; 8] false
              [ReadFull [42; 161; 163; 190; 73; 157; 154; 188];
               ReadFull [1; 2; 3; 4; 5; 6; 7; 8]; ReadError] Mutex.state0
              eq_refl eq_refl)
    as [(C & _) | [(C & _) | (C & _)]];
    [discriminate C | split; reflexivity | discriminate C].
Defined.

Lemma getReadings_skip_witness :
  let r := Atomic.getReadings [1; 2; 3; 4; 5; 6; 7; 8] true
             [ReadFull [1; 2; 3; 4; 5; 6; 7; 8]; ReadError;
              ReadFull [1; 2; 3; 4; 5; 6; 7; 8]] Atomic.state0 in
  control_of r <> Break /\ control_of r <> Panic /\
  (control_of r = Exit <->
   In ReadError [ReadFull [1; 2; 3; 4; 5; 6; 7; 8]; ReadError;
                 ReadFull [1; 2; 3; 4; 5; 6; 7; 8]]).
Proof.
  apply (getReadings_skip_ends_on_read_error_only
           Atomic.case_0x50 Atomic.case_0x42 [1; 2; 3; 4; 5; 6; 7; 8]
           [ReadFull [1; 2; 3; 4; 5; 6; 7; 8]; ReadError;
            ReadFull [1; 2; 3; 4; 5; 6; 7; 8]] Atomic.state0);
    reflexivity.
Defined.

Lemma getReadings_stopped_witness :
  Mutex.getReadings [1; 2; 3; 4; 5; 6; 7; 8] false
    ([ReadFull [1; 2; 3; 4; 5; 6; 7; 8]]
     ++ [ReadFull [42; 161; 163; 190; 73; 157; 154; 188]]) Mutex.state0 =
  Mutex.getReadings [1; 2; 3; 4; 5; 6; 7; 8] false
    [ReadFull [1; 2; 3; 4; 5; 6; 7; 8]] Mutex.state0.
Proof.
  apply (getReadings_stopped_is_final Mutex.case_0x50 Mutex.case_0x42
           [1; 2; 3; 4; 5; 6; 7; 8] false
           [ReadFull [1; 2; 3; 4; 5; 6; 7; 8]]
           [ReadFull [42; 161; 163; 190; 73; 157; 154; 188]] Mutex.state0).
  vm_compute. discriminate.
Defined.

(** ** The values the state can hold *)

Lemma dispatched_frames key skip reads :
  is_frame key = true -> well_formed reads = true ->
  Forall (fun f => is_frame f = true) (dispatched key skip reads).
Proof.
  intros Hk. induction reads as [|r reads IH]; intros W; [constructor|].
  cbn [well_formed forallb] in W. apply andb_prop in W as [Wr W].
  fold (well_formed reads) in W.
  destruct r as [buffer|]; [|constructor].
  cbn [dispatched]. destruct skip.
  - constructor; [assumption | apply IH, W].
  - rewrite (decryptReading_decode buffer key Wr Hk).
    destruct (isValidReading (Spec.decode buffer key)) as [[|]|];
      try constructor; [apply decode_is_frame | apply IH, W].
Qed.

Lemma last_value_range kind frames v :
  Forall (fun f => is_frame f = true) frames ->
  last_value kind frames = Some v -> 0 <= v < 65536.
Proof.
  induction 1 as [|f frames Hf _ IH]; intros L; [discriminate L|].
  cbn [last_value] in L.
  destruct (last_value kind frames) as [w|].
  - injection L as <-. apply IH. reflexivity.
  - pose proof Hf as Hf'. frame_bytes Hf'.
    rewrite code_and_value_bytes in L.
    destruct (_ =? kind); [|discriminate L]. injection L as <-.
    rewrite big_endian_16 by lia. lia.
Qed.

(** X9. The values stored never leave 16 bits: from a state whose fields
    are 16-bit values, after any run of the loop the CO2 field of both
    implementations and the raw temperature of the second are in
    [0, 65536); so the [int32] stores of the second implementation never
    wrap. *)
Theorem stored_values_are_16_bit key skip reads s0 g0 :
  is_frame key = true -> well_formed reads = true ->
  0 <= Mutex.co2 s0 < 65536 ->
  0 <= Atomic.co2 g0 < 65536 -> 0 <= Atomic.raw_temperature g0 < 65536 ->
  let s := state_of (Mutex.getReadings key skip reads s0) in
  let g := state_of (Atomic.getReadings key skip reads g0) in
  0 <= Mutex.Co2 s < 65536 /\
  0 <= Atomic.co2 g < 65536 /\
  0 <= Atomic.raw_temperature g < 65536.
Proof.
  intros Hk W Hs Hg Ht s g. subst s g.
  unfold Mutex.getReadings, Atomic.getReadings.
  rewrite (getReadings_reflects _ _ Mutex.Co2 (fun v => v) 0x50
             Mutex_Co2_dispatch key skip reads s0 Hk W).
  rewrite (getReadings_reflects _ _ Atomic.co2 (fun v => v) 0x50
             Atomic_co2_dispatch key skip reads g0 Hk W).
  rewrite (getReadings_reflects _ _ Atomic.raw_temperature (fun v => v) 0x42
             Atomic_raw_temperature_dispatch key skip reads g0 Hk W).
  pose proof (dispatched_frames key skip reads Hk W) as F.
  pose proof (fun v => last_value_range 0x50 _ v F) as R50.
  pose proof (fun v => last_value_range 0x42 _ v F) as R42.
  destruct (last_value 0x50 (dispatched key skip reads)) as [v|];
    destruct (last_value 0x42 (dispatched key skip reads)) as [w|];
    repeat split; try (apply (R50 _ eq_refl)); try (apply (R42 _ eq_refl));
    try apply Hs; try apply Hg; try apply Ht.
Qed.

Lemma stored_values_are_16_bit_witness :
  let reads := [ReadFull [0x50; 0xFF; 0xFF; 0; 0; 0; 0; 0];
                ReadFull [0x42; 0xFF; 0xFF; 0; 0; 0; 0; 0]] in
  let s := state_of (Mutex.getReadings [1; 2; 3; 4; 5; 6; 7; 8] true reads
                       Mutex.state0) in
  let g := state_of (Atomic.getReadings [1; 2; 3; 4; 5; 6; 7; 8] true reads
                       Atomic.state0) in
  0 <= Mutex.Co2 s < 65536 /\
  0 <= Atomic.co2 g < 65536 /\
  0 <= Atomic.raw_temperature g < 65536.
Proof.
  intros reads.
  apply (stored_values_are_16_bit [1; 2; 3; 4; 5; 6; 7; 8] true reads
           Mutex.state0 Atomic.state0);
    first [reflexivity | vm_compute; split; [discriminate | reflexivity]].
Defined.

(** ** The two implementations side by side *)

Lemma iteration_control_log {St1 St2 : Type}
    (c1 t1 : Z -> St1 -> St1) (c2 t2 : Z -> St2 -> St2) key skip r s1 s2 :
  control_of (iteration c1 t1 key skip r s1) =
  control_of (iteration c2 t2 key skip r s2) /\
  log_of (iteration c1 t1 key skip r s1) =
  log_of (iteration c2 t2 key skip r s2).
Proof.
  destruct r as [buffer|]; [|split; reflexivity].
  unfold iteration. destruct skip.
  - destruct (code_and_value buffer) as [[code value]|]; split; reflexivity.
  - destruct (decryptReading buffer key) as [d|]; [|split; reflexivity].
    destruct (isValidReading d) as [[|]|]; try (split; reflexivity).
    destruct (code_and_value d) as [[code value]|]; split; reflexivity.
Qed.

Lemma getReadings_control_log {St1 St2 : Type}
    (c1 t1 : Z -> St1 -> St1) (c2 t2 : Z -> St2 -> St2) key skip reads :
  forall s1 s2,
  control_of (getReadings c1 t1 key skip reads s1) =
  control_of (getReadings c2 t2 key skip reads s2) /\
  log_of (getReadings c1 t1 key skip reads s1) =
  log_of (getReadings c2 t2 key skip reads s2).
Proof.
  induction reads as [|r reads IH]; intros s1 s2; [split; reflexivity|].
  cbn [getReadings].
  destruct (iteration_control_log c1 t1 c2 t2 key skip r s1 s2) as [C L].
  destruct (iteration c1 t1 key skip r s1) as [[k1 s1'] e1].
  destruct (iteration c2 t2 key skip r s2) as [[k2 s2'] e2].
  cbn in C, L. subst k2 e2.
  destruct k1; try (split; reflexivity).
  destruct (IH s1' s2') as [C' L'].
  destruct (getReadings c1 t1 key skip reads s1') as [[k1 s1''] e1'].
  destruct (getReadings c2 t2 key skip reads s2') as [[k2 s2''] e2'].
  cbn in C', L'. subst k2 e2'. split; reflexivity.
Qed.

(** X10. The two source files behave alike on every stream. Started from
    their initial states on the same key, flag and reads, the loops end the
    same way and log the same events, and the CO2 gauges show the same
    number. The temperature gauges show the same number as soon as a
    temperature frame has been dispatched; until then they differ (the
    first file shows 0, the second the conversion of raw 0). *)
Theorem implementations_agree key skip reads :
  is_frame key = true -> well_formed reads = true ->
  let m := Mutex.getReadings key skip reads Mutex.state0 in
  let a := Atomic.getReadings key skip reads Atomic.state0 in
  control_of a = control_of m /\
  log_of a = log_of m /\
  Atomic.co2 (state_of a) = Mutex.Co2 (state_of m) /\
  fst (Atomic_gauges (state_of a)) = fst (Mutex_gauges (state_of m)) /\
  match last_value 0x42 (dispatched key skip reads) with
  | Some _ => Atomic_gauges (state_of a) = Mutex_gauges (state_of m)
  | None =>
      PrimFloat.Leibniz.eqb (snd (Atomic_gauges (state_of a)))
                            (snd (Mutex_gauges (state_of m))) = false
  end.
Proof.
  intros Hk W m a. subst m a.
  unfold Mutex.getReadings, Atomic.getReadings.
  destruct (getReadings_control_log
              Atomic.case_0x50 Atomic.case_0x42
              Mutex.case_0x50 Mutex.case_0x42 key skip reads
              Atomic.state0 Mutex.state0) as [C L].
  pose proof (getReadings_reflects _ _ Mutex.Co2 (fun v => v) 0x50
                Mutex_Co2_dispatch key skip reads Mutex.state0 Hk W) as M50.
  pose proof (getReadings_reflects _ _ Atomic.co2 (fun v => v) 0x50
                Atomic_co2_dispatch key skip reads Atomic.state0 Hk W) as A50.
  pose proof (getReadings_reflects _ _ Mutex.Temperature spec_celsius 0x42
                Mutex_Temperature_dispatch key skip reads Mutex.state0 Hk W)
    as M42.
  pose proof (getReadings_reflects _ _ Atomic.raw_temperature (fun v => v)
                0x42 Atomic_raw_temperature_dispatch key skip reads
                Atomic.state0 Hk W) as A42.
  assert (E : Atomic.co2
                (state_of (getReadings Atomic.case_0x50 Atomic.case_0x42
                             key skip reads Atomic.state0)) =
              Mutex.Co2
                (state_of (getReadings Mutex.case_0x50 Mutex.case_0x42
                             key skip reads Mutex.state0))).
  { rewrite M50, A50.
    destruct (last_value 0x50 (dispatched key skip reads)); reflexivity. }
  split; [exact C|]. split; [exact L|]. split; [exact E|].
  unfold Atomic_gauges, Mutex_gauges, Atomic.Co2. cbn [fst snd].
  rewrite E. split; [reflexivity|].
  change (Atomic.Temperature ?g) with (spec_celsius (Atomic.raw_temperature g)).
  rewrite M42, A42.
  destruct (last_value 0x42 (dispatched key skip reads)); reflexivity.
Qed.

Lemma implementations_agree_witness :
  let reads := [ReadFull [0x50; 0x02; 0x0F; 0x61; 0x0D; 0; 0; 0];
                ReadFull [0x42; 0x12; 0x49; 0x9D; 0x0D; 0; 0; 0];
                ReadError] in
  let m := Mutex.getReadings [1; 2; 3; 4; 5; 6; 7; 8] true reads
             Mutex.state0 in
  let a := Atomic.getReadings [1; 2; 3; 4; 5; 6; 7; 8] true reads
             Atomic.state0 in
  control_of a = control_of m /\
  log_of a = log_of m /\
  Atomic.co2 (state_of a) = Mutex.Co2 (state_of m) /\
  fst (Atomic_gauges (state_of a)) = fst (Mutex_gauges (state_of m)) /\
  Atomic_gauges (state_of a) = Mutex_gauges (state_of m).
Proof.
  intros reads.
  exact (implementations_agree [1; 2; 3; 4; 5; 6; 7; 8] true reads
           eq_refl eq_refl).
Defined.

(** ** What the gauges show *)

Lemma float64_exact_16_bit v :
  0 <= v < 65536 -> float64_exact_at v = true.
Proof.
  apply (forall_below float64_exact_at 65536).
  vm_compute. reflexivity.
Qed.

(** X11. The CO2 gauge is exact: after any run of the loop from the
    initial state, the binary64 number either implementation hands to the
    CO2 gauge denotes the integer that was stored, with no rounding. *)
Theorem co2_gauge_is_exact key skip reads :
  is_frame key = true -> well_formed reads = true ->
  let s := state_of (Mutex.getReadings key skip reads Mutex.state0) in
  let g := state_of (Atomic.getReadings key skip reads Atomic.state0) in
  float_to_Z (fst (Mutex_gauges s)) = Some (Mutex.Co2 s) /\
  float_to_Z (fst (Atomic_gauges g)) = Some (Atomic.co2 g).
Proof.
  intros Hk W s g.
  assert (X : forall v, 0 <= v < 65536 ->
                        float_to_Z (float64_of_int v) = Some v).
  { intros v Hv. pose proof (float64_exact_16_bit v Hv) as E.
    unfold float64_exact_at in E.
    destruct (float_to_Z (float64_of_int v)) as [w|]; [|discriminate E].
    apply Z.eqb_eq in E. subst w. reflexivity. }
  pose proof (dispatched_frames key skip reads Hk W) as F.
  pose proof (fun v => last_value_range 0x50 _ v F) as R50.
  unfold Mutex_gauges, Atomic_gauges, Atomic.Co2. cbn [fst].
  split; apply X; subst s g; unfold Mutex.getReadings, Atomic.getReadings.
  - rewrite (getReadings_reflects _ _ Mutex.Co2 (fun v => v) 0x50
               Mutex_Co2_dispatch key skip reads Mutex.state0 Hk W).
    destruct (last_value 0x50 (dispatched key skip reads)) as [v|];
      [apply (R50 v eq_refl) | cbn; lia].
  - rewrite (getReadings_reflects _ _ Atomic.co2 (fun v => v) 0x50
               Atomic_co2_dispatch key skip reads Atomic.state0 Hk W).
    destruct (last_value 0x50 (dispatched key skip reads)) as [v|];
      [apply (R50 v eq_refl) | cbn; lia].
Qed.

Lemma co2_gauge_is_exact_witness :
  let reads := [ReadFull [0x50; 0xFF; 0xFF; 0; 0; 0; 0; 0]] in
  let s := state_of (Mutex.getReadings [1; 2; 3; 4; 5; 6; 7; 8] true reads
                       Mutex.state0) in
  let g := state_of (Atomic.getReadings [1; 2; 3; 4; 5; 6; 7; 8] true reads
                       Atomic.state0) in
  float_to_Z (fst (Mutex_gauges s)) = Some (Mutex.Co2 s) /\
  float_to_Z (fst (Atomic_gauges g)) = Some (Atomic.co2 g).
Proof.
  intros reads.
  exact (co2_gauge_is_exact [1; 2; 3; 4; 5; 6; 7; 8] true reads
           eq_refl eq_refl).
Defined.

Lemma celsius_ok_16_bit raw :
  0 <= raw < 65536 -> celsius_ok raw = true.
Proof.
  apply (forall_below celsius_ok 65536).
  vm_compute. reflexivity.
Qed.

Lemma celsius_cents_16_bit raw :
  0 <= raw < 65536 ->
  exists n,
    celsius_cents raw = Some n /\
    Z.abs (100 * n - (625 * raw - 2731500)) <= 50 /\
    PrimFloat.Leibniz.eqb (spec_celsius raw) (hundredths n) = true.
Proof.
  intros H. pose proof (celsius_ok_16_bit raw H) as E.
  unfold celsius_ok in E.
  destruct (celsius_cents raw) as [n|]; [|discriminate E].
  apply andb_prop in E as [E1 E2]. apply Z.leb_le in E1.
  exists n. repeat split; assumption.
Qed.

(** X12. The temperature conversion on the 16-bit raw values: before the
    division by 100 [math.Round] yields a whole number of hundredths that
    is within half a hundredth of the exact [(raw/16 - 273.15) * 100] and
    lies between -27315 and 382279; the value returned is the binary64
    number of that many hundredths; and a larger raw value gives a
    strictly larger temperature, by 6 to 7 hundredths for each unit of the
    raw value, so distinct raw values never collapse. Both implementations
    return this conversion for the raw value of a temperature frame. *)
Theorem temperature_conversion_monotone raw1 raw2 :
  0 <= raw1 -> raw1 < raw2 -> raw2 < 65536 ->
  exists n1 n2,
    celsius_cents raw1 = Some n1 /\ celsius_cents raw2 = Some n2 /\
    Z.abs (100 * n1 - (625 * raw1 - 2731500)) <= 50 /\
    Z.abs (100 * n2 - (625 * raw2 - 2731500)) <= 50 /\
    -27315 <= n1 /\ n1 < n2 /\ n2 <= 382279 /\
    n1 + 6 * (raw2 - raw1) <= n2 <= n1 + 7 * (raw2 - raw1) /\
    PrimFloat.Leibniz.eqb (spec_celsius raw1) (hundredths n1) = true /\
    PrimFloat.Leibniz.eqb (spec_celsius raw2) (hundredths n2) = true /\
    Atomic.Temperature (Atomic.case_0x42 raw2 Atomic.state0) =
    spec_celsius raw2 /\
    Mutex.Temperature (Mutex.case_0x42 raw2 Mutex.state0) =
    spec_celsius raw2.
Proof.
  intros H0 H1 H2.
  destruct (celsius_cents_16_bit raw1 ltac:(lia)) as (n1 & E1 & A1 & F1).
  destruct (celsius_cents_16_bit raw2 ltac:(lia)) as (n2 & E2 & A2 & F2).
  exists n1, n2.
  repeat split; try assumption; try reflexivity; lia.
Qed.

Lemma temperature_conversion_monotone_witness :
  exists n1 n2,
    celsius_cents 4681 = Some n1 /\ celsius_cents 4689 = Some n2 /\
    Z.abs (100 * n1 - (625 * 4681 - 2731500)) <= 50 /\
    Z.abs (100 * n2 - (625 * 4689 - 2731500)) <= 50 /\
    -27315 <= n1 /\ n1 < n2 /\ n2 <= 382279 /\
    n1 + 6 * (4689 - 4681) <= n2 <= n1 + 7 * (4689 - 4681) /\
    PrimFloat.Leibniz.eqb (spec_celsius 4681) (hundredths n1) = true /\
    PrimFloat.Leibniz.eqb (spec_celsius 4689) (hundredths n2) = true /\
    Atomic.Temperature (Atomic.case_0x42 4689 Atomic.state0) =
    spec_celsius 4689 /\
    Mutex.Temperature (Mutex.case_0x42 4689 Mutex.state0) =
    spec_celsius 4689.
Proof.
  apply (temperature_conversion_monotone 4681 4689); lia.
Defined.

(** ** The handshake *)

Lemma copy_length dst src : length (copy dst src) = length dst.
Proof.
  unfold copy. rewrite length_app, length_take, length_drop. lia.
Qed.

Lemma copy_zeros n src :
  copy (replicate n 0) src = take n src ++ replicate (n - length src) 0.
Proof.
  unfold copy. rewrite length_replicate, drop_replicate. reflexivity.
Qed.

Lemma hid_report_unfold key :
  hid_report key = 0 :: take 8 key ++ replicate (8 - length key) 0.
Proof.
  unfold hid_report.
  change (take 1 (<[0%nat:=0]> (replicate 9 0))) with [0].
  change (drop 1 (<[0%nat:=0]> (replicate 9 0))) with (replicate 8 0).
  rewrite copy_zeros. reflexivity.
Qed.

Lemma hid_report_8 key :
  length key = 8%nat -> hid_report key = 0 :: key.
Proof.
  intros L. rewrite hid_report_unfold, L, Nat.sub_diag.
  rewrite take_ge by lia. cbn [replicate]. rewrite app_nil_r. reflexivity.
Qed.

Lemma main_key_length w :
  length (copy (replicate 8 0) (random_bytes w)) = 8%nat.
Proof. rewrite copy_length. apply length_replicate. Qed.

(** X13. The report of [hidSetReport] for a key of any length: always nine
    bytes, the report number 0 first, then the first eight bytes of the
    key, and zeros for what a shorter key leaves open. A key longer than
    eight bytes is cut and never overruns the report. *)
Theorem hid_report_layout key :
  length (hid_report key) = 9%nat /\
  hid_report key !! 0%nat = Some 0 /\
  hid_report key = 0 :: take 8 key ++ replicate (8 - length key) 0 /\
  (forall i, (i < 8)%nat ->
     hid_report key !! S i = Some (default 0 (key !! i))).
Proof.
  rewrite hid_report_unfold. repeat split.
  - cbn [length]. rewrite length_app, length_take, length_replicate. lia.
  - intros i Hi.
    change ((0 :: ?l) !! S i) with (l !! i).
    destruct (Nat.lt_ge_cases i (length key)) as [L|G].
    + rewrite lookup_app_l by (rewrite length_take; lia).
      rewrite lookup_take_lt by lia.
      destruct (lookup_lt_is_Some_2 key i L) as [x ->]. reflexivity.
    + rewrite lookup_app_r by (rewrite length_take; lia).
      rewrite length_take, (lookup_ge_None_2 key i G).
      rewrite lookup_replicate_2 by lia. reflexivity.
Qed.

Lemma hid_report_layout_witness :
  hid_report [1; 2; 3] = [0; 1; 2; 3; 0; 0; 0; 0; 0] /\
  hid_report [1; 2; 3; 4; 5; 6; 7; 8; 9; 10] !! 8%nat = Some 8.
Proof.
  split.
  - apply (proj1 (proj2 (proj2 (hid_report_layout [1; 2; 3])))).
  - apply (proj2 (proj2 (proj2
             (hid_report_layout [1; 2; 3; 4; 5; 6; 7; 8; 9; 10]))) 7%nat).
    lia.
Defined.

(** X14. What holds when [main] gets as far as starting the poll loop: a
    device path was given, the device was opened, the [ioctl] accepted the
    report, the report is the byte 0 followed by exactly the key that
    [getReadings] is started with, that key has eight bytes (the random
    bytes, zeros where the random source delivered fewer), and the loop
    gets the value of the [skip-decryption] flag. *)
Theorem main_started_handshake f w st :
  main f w = inr st ->
  deviceFlag f <> ""%string /\
  open_succeeds w = true /\
  ioctl_errno w (sent_report st) = 0 /\
  sent_report st = 0 :: poll_key st /\
  length (poll_key st) = 8%nat /\
  poll_key st =
    take 8 (random_bytes w) ++ replicate (8 - length (random_bytes w)) 0 /\
  poll_skip st = skipDecryptionFlag f.
Proof.
  unfold main, hidSetReport.
  pose proof (main_key_length w) as L.
  pose proof (copy_zeros 8 (random_bytes w)) as K.
  remember (copy (replicate 8 0) (random_bytes w)) as key eqn:Ek.
  intros H.
  destruct (String.eqb_spec (deviceFlag f) "") as [E|N]; [discriminate H|].
  destruct (open_succeeds w); [|discriminate H]. cbn [negb] in H.
  destruct (Z.eqb_spec (ioctl_errno w (hid_report key)) 0) as [Z0|NZ];
    [|discriminate H].
  cbn [negb] in H. injection H as <-. cbn [sent_report poll_key poll_skip].
  repeat split; try assumption. apply hid_report_8, L.
Qed.

Lemma main_started_handshake_witness :
  let st := {| sent_report := [0; 11; 22; 33; 44; 55; 66; 77; 88];
               poll_key := [11; 22; 33; 44; 55; 66; 77; 88];
               poll_skip := false |} in
  let w := {| open_succeeds := true;
              random_bytes := [11; 22; 33; 44; 55; 66; 77; 88];
              ioctl_errno := fun _ => 0 |} in
  let f := {| deviceFlag := "/dev/hidraw0";
              skipDecryptionFlag := false |} in
  deviceFlag f <> ""%string /\
  open_succeeds w = true /\
  ioctl_errno w (sent_report st) = 0 /\
  sent_report st = 0 :: poll_key st /\
  length (poll_key st) = 8%nat /\
  poll_key st =
    take 8 (random_bytes w) ++ replicate (8 - length (random_bytes w)) 0 /\
  poll_skip st = skipDecryptionFlag f.
Proof.
  intros st w f. apply (main_started_handshake f w st). reflexivity.
Defined.

(** X15. The exits of [main] before the poll loop, in the order the code
    takes them: without a device path it exits whatever the device and the
    system call would do; with a path it exits when the open fails; with an
    open device it exits exactly when the [ioctl] returns a nonzero
    [errno], which the exit reports. In none of these cases is the loop
    started. *)
Theorem main_exits f w e :
  main f w = inl e <->
  match e with
  | Fatal_missing_device_path => deviceFlag f = ""%string
  | Fatal_open => deviceFlag f <> ""%string /\ open_succeeds w = false
  | Fatal_ioctl errno =>
      deviceFlag f <> ""%string /\ open_succeeds w = true /\
      errno <> 0 /\
      ioctl_errno w
        (0 :: take 8 (random_bytes w)
           ++ replicate (8 - length (random_bytes w)) 0) = errno
  end.
Proof.
  assert (R : hid_report (copy (replicate 8 0) (random_bytes w)) =
              0 :: take 8 (random_bytes w)
                ++ replicate (8 - length (random_bytes w)) 0).
  { rewrite (hid_report_8 _ (main_key_length w)), copy_zeros. reflexivity. }
  unfold main, hidSetReport. rewrite R.
  destruct (String.eqb_spec (deviceFlag f) "") as [E|N].
  { destruct e; split; intros H; try discriminate H; try reflexivity;
      try assumption; destruct H as [H _]; contradiction. }
  destruct (open_succeeds w); cbn [negb].
  - destruct (Z.eqb_spec
                (ioctl_errno w
                   (0 :: take 8 (random_bytes w)
                      ++ replicate (8 - length (random_bytes w)) 0)) 0)
      as [Z0|NZ]; cbn [negb].
    + destruct e; split; intros H; try discriminate H; try contradiction.
      * destruct H as [_ H]. discriminate H.
      * destruct H as (_ & _ & H1 & H2). congruence.
    + destruct e; split; intros H; try discriminate H; try contradiction.
      * destruct H as [_ H]. discriminate H.
      * injection H as <-. repeat split; assumption.
      * destruct H as (_ & _ & _ & ->). reflexivity.
  - destruct e; split; intros H; try discriminate H; try contradiction.
    + split; [assumption | reflexivity].
    + reflexivity.
    + destruct H as (_ & H & _). discriminate H.
Qed.

Lemma forallb_take {A : Type} (p : A -> bool) n l :
  forallb p l = true -> forallb p (take n l) = true.
Proof.
  revert n. induction l as [|x l IH]; intros [|n] H; try reflexivity.
  cbn [forallb] in H. apply andb_prop in H as [H1 H2].
  cbn [take forallb]. rewrite H1. apply IH, H2.
Qed.

Lemma forallb_replicate {A : Type} (p : A -> bool) n x :
  p x = true -> forallb p (replicate n x) = true.
Proof.
  intros H. induction n as [|n IH]; [reflexivity|].
  cbn [replicate forallb]. rewrite H. exact IH.
Qed.

Lemma main_exits_witness :
  main {| deviceFlag := "/dev/hidraw0"; skipDecryptionFlag := false |}
       {| open_succeeds := true;
          random_bytes := [11; 22; 33; 44; 55; 66; 77; 88];
          ioctl_errno :=
            fun report => if (length report =? 9)%nat then 25 else 0 |}
  = inl (Fatal_ioctl 25).
Proof.
  apply main_exits. cbn. repeat split; discriminate.
Defined.

(** X16. The handshake and the poll loop fit together. When [main] has
    started the loop with decryption enabled and the device obfuscates a
    frame in the valid layout under the eight key bytes of the report it
    was sent, the first iteration decrypts and accepts it: it continues
    without logging and the [switch] gets the kind and value of that
    frame. *)
Theorem main_then_iteration {St : Type}
    (on_co2 on_temperature : Z -> St -> St)
    f w st code value t5 t6 t7 s :
  main f w = inr st ->
  poll_skip st = false ->
  forallb is_byte (random_bytes w) = true ->
  0 <= code < 256 -> 0 <= value < 65536 ->
  0 <= t5 < 256 -> 0 <= t6 < 256 -> 0 <= t7 < 256 ->
  iteration on_co2 on_temperature (poll_key st) (poll_skip st)
    (ReadFull (Spec.encode (plain_frame code value t5 t6 t7)
                 (drop 1 (sent_report st)))) s =
  (Continue, dispatch on_co2 on_temperature code value s, []).
Proof.
  intros M Sk Hr Hc Hv H5 H6 H7.
  assert (K : poll_key st =
              take 8 (random_bytes w)
                ++ replicate (8 - length (random_bytes w)) 0 /\
              sent_report st = 0 :: poll_key st /\
              length (poll_key st) = 8%nat).
  { revert M. unfold main, hidSetReport.
    pose proof (main_key_length w) as L.
    pose proof (copy_zeros 8 (random_bytes w)) as K.
    remember (copy (replicate 8 0) (random_bytes w)) as key eqn:Ek.
    destruct (String.eqb (deviceFlag f) ""); [discriminate|].
    destruct (open_succeeds w); [|discriminate]. cbn [negb].
    destruct (_ =? 0); [|discriminate]. cbn [negb].
    intros M. injection M as <-. cbn [sent_report poll_key].
    repeat split; [exact K | apply hid_report_8, L | exact L]. }
  destruct K as (K1 & K2 & K3).
  assert (Hk : is_frame (poll_key st) = true).
  { unfold is_frame. rewrite K3. cbn [Nat.eqb andb]. rewrite K1.
    rewrite forallb_app, (forallb_take _ _ _ Hr), forallb_replicate;
      reflexivity. }
  rewrite K2, Sk. change (drop 1 (0 :: poll_key st)) with (poll_key st).
  pose proof (plain_frame_is_frame code value t5 t6 t7 Hc Hv H5 H6 H7) as Hf.
  unfold iteration.
  rewrite (decryptReading_encode _ (poll_key st) Hf Hk).
  rewrite (plain_frame_valid code value t5 t6 t7 Hc Hv).
  rewrite (plain_frame_code_and_value code value t5 t6 t7 Hv).
  reflexivity.
Qed.

Lemma main_then_iteration_witness :
  let st := {| sent_report := [0; 11; 22; 33; 44; 55; 66; 77; 88];
               poll_key := [11; 22; 33; 44; 55; 66; 77; 88];
               poll_skip := false |} in
  Atomic.iteration (poll_key st) (poll_skip st)
    (ReadFull (Spec.encode (plain_frame 0x42 4681 0 0 0)
                 (drop 1 (sent_report st)))) Atomic.state0 =
  (Continue, Atomic.dispatch 0x42 4681 Atomic.state0, []).
Proof.
  intros st.
  apply (main_then_iteration Atomic.case_0x50 Atomic.case_0x42
           {| deviceFlag := "/dev/hidraw0"; skipDecryptionFlag := false |}
           {| open_succeeds := true;
              random_bytes := [11; 22; 33; 44; 55; 66; 77; 88];
              ioctl_errno := fun _ => 0 |}
           st 0x42 4681 0 0 0 Atomic.state0);
    first [reflexivity | lia].
Defined.
